(** * VteFileStream: a two-generation, file-backed append-only byte stream

    Shallow embedding of [src/vtestream-file.h].  The C code talks to the
    operating system through [pread], [pwrite], [ftruncate], [lseek],
    [_vte_mkstemp] and [g_output_stream_splice]; the embedding threads an
    explicit operating-system state through every call.  That state holds
    the open files, a finite script of injected events (interruptions,
    errors, short transfers) consumed one per system call (one per chunk
    by the splice), and a chronological log of the calls issued.

    The arrays [fd[2]] and [offset[2]] of the C structure are the fields
    [fd0], [fd1], [offset0], [offset1]; index 0 is the write head (the
    current generation), index 1 the last page (the previous generation).
    The platform is taken to provide [pread] and [pwrite], so the [lseek]
    fallbacks at the top of the source are not compiled in. *)

From Stdlib Require Import ZArith List Lia.
From Stdlib.Init Require Import Byte.
From stdpp Require Import base gmap list.

Open Scope Z_scope.

(** ** [gsize] arithmetic

    [gsize] is glib's unsigned machine word; the embedding fixes the LP64
    width.  Every arithmetic operation of the source on a [gsize] is
    written with its wrap-around. *)

Definition gsize_bits : Z := 64.
Definition gsize_modulus : Z := 2 ^ gsize_bits.
Definition gsize_wrap (z : Z) : Z := z mod gsize_modulus.
Definition gsize_add (a b : Z) : Z := gsize_wrap (a + b).
Definition gsize_sub (a b : Z) : Z := gsize_wrap (a - b).
Definition is_gsize (z : Z) : Prop := 0 <= z < gsize_modulus.

(** ** The operating system *)

(** The error numbers the source tells apart (EINTR, EINVAL) and some it
    does not. *)
Inductive errno := EINTR | EINVAL | ENOSPC | EBADF | EIO.

(** One scripted event decides how the next system call behaves. *)
Inductive inject :=
| Normal
| Fail (e : errno)
| Short (n : nat).

(** What a system call returns: a count (or 0), or -1 with [errno] set. *)
Inductive sysret :=
| RetOk (n : Z)
| RetErr (e : errno).

(** The calls as they appear in the log, with their arguments. *)
Inductive syscall :=
| SysPread (fd len offset : Z)
| SysPwrite (fd : Z) (data : list byte) (len offset : Z)
| SysFtruncate (fd length : Z)
| SysLseek (fd offset : Z)
| SysMkstemp
| SysSplice (fd : Z).

(** Open files by descriptor, the file position of each descriptor (used
    by [lseek] and the splice only), the events still to come and the log. *)
Record OS := mkOS {
  os_files : gmap Z (list byte);
  os_pos : gmap Z Z;
  os_script : list inject;
  os_log : list (syscall * sysret)
}.

Definition os_boot : OS := mkOS ∅ ∅ [] [].

Definition with_script (sc : list inject) (os : OS) : OS :=
  mkOS (os_files os) (os_pos os) sc (os_log os).

(** ** Results and the system-call monad

    [Aborted] is a failed [g_assert]; [Diverged] is a loop that ran out of
    fuel (shown below never to happen, the script being finite). *)

Inductive result (A : Type) :=
| Done (a : A)
| Aborted
| Diverged.
Arguments Done {A} a.
Arguments Aborted {A}.
Arguments Diverged {A}.

Definition M (A : Type) : Type := OS -> result (A * OS).

Definition mret {A} (a : A) : M A := fun os => Done (a, os).
Definition mbind {A B} (m : M A) (k : A -> M B) : M B :=
  fun os => match m os with
            | Done (a, os') => k a os'
            | Aborted => Aborted
            | Diverged => Diverged
            end.
Definition abort {A} : M A := fun _ => Aborted.
Definition diverge {A} : M A := fun _ => Diverged.

Notation "'let*' x ':=' m 'in' k" := (mbind m (fun x => k))
  (at level 10, x name, m at level 100, k at level 200).
Notation "'let*' ' p ':=' m 'in' k" := (mbind m (fun x => match x with p => k end))
  (at level 10, p pattern, m at level 100, k at level 200).
Notation "m ';;' k" := (mbind m (fun _ => k))
  (at level 100, k at level 200, right associativity).

(** Take the next scripted event; an exhausted script means [Normal]. *)
Definition next_inject : M inject := fun os =>
  match os_script os with
  | [] => Done (Normal, os)
  | i :: sc => Done (i, with_script sc os)
  end.

Definition log_call (c : syscall) (r : sysret) : M unit := fun os =>
  Done (tt, mkOS (os_files os) (os_pos os) (os_script os) (os_log os ++ [(c, r)])).

Definition get_file (fd : Z) : M (option (list byte)) := fun os =>
  Done (os_files os !! fd, os).

Definition put_file (fd : Z) (f : list byte) : M unit := fun os =>
  Done (tt, mkOS (<[fd := f]> (os_files os)) (os_pos os) (os_script os) (os_log os)).

Definition get_pos (fd : Z) : M Z := fun os =>
  Done (default 0 (os_pos os !! fd), os).

Definition put_pos (fd : Z) (p : Z) : M unit := fun os =>
  Done (tt, mkOS (os_files os) (<[fd := p]> (os_pos os)) (os_script os) (os_log os)).

(** Number of scripted events still pending: the termination budget of the
    retry loops. *)
Definition pending : M nat := fun os => Done (length (os_script os), os).

(** Writing [bytes] at [off] into a file; a gap is filled with zeros. *)
Definition file_write (f : list byte) (off : Z) (bytes : list byte) : list byte :=
  match bytes with
  | [] => f
  | _ => resize (Z.to_nat off) x00 f ++ bytes
           ++ drop (Z.to_nat off + length bytes)%nat f
  end.

Definition short_count (i : inject) (len : Z) : Z :=
  match i with
  | Short k => Z.min len (Z.of_nat k)
  | _ => len
  end.

(** [pwrite]: a scripted error, EBADF on a descriptor that is not open, or
    the number of bytes stored, all of [len] unless the event is [Short]. *)
Definition sys_pwrite (fd : Z) (data : list byte) (len offset : Z) : M sysret :=
  let call := SysPwrite fd data len offset in
  let* i := next_inject in
  match i with
  | Fail e => log_call call (RetErr e) ;; mret (RetErr e)
  | _ =>
    let* ofile := get_file fd in
    match ofile with
    | None => log_call call (RetErr EBADF) ;; mret (RetErr EBADF)
    | Some f =>
      let bytes := take (Z.to_nat (short_count i len)) data in
      let n := Z.of_nat (length bytes) in
      put_file fd (file_write f offset bytes) ;;
      log_call call (RetOk n) ;; mret (RetOk n)
    end
  end.

(** [pread]: as [pwrite]; the count is also bounded by what the file holds
    from [offset] on, and is 0 at or past its end. *)
Definition sys_pread (fd : Z) (len offset : Z) : M (sysret * list byte) :=
  let call := SysPread fd len offset in
  let* i := next_inject in
  match i with
  | Fail e => log_call call (RetErr e) ;; mret (RetErr e, [])
  | _ =>
    let* ofile := get_file fd in
    match ofile with
    | None => log_call call (RetErr EBADF) ;; mret (RetErr EBADF, [])
    | Some f =>
      let bytes := take (Z.to_nat (short_count i len)) (drop (Z.to_nat offset) f) in
      let n := Z.of_nat (length bytes) in
      log_call call (RetOk n) ;; mret (RetOk n, bytes)
    end
  end.

(** [ftruncate]: the file is cut, or extended with zeros, to [length]. *)
Definition sys_ftruncate (fd : Z) (length : Z) : M sysret :=
  let call := SysFtruncate fd length in
  let* i := next_inject in
  match i with
  | Fail e => log_call call (RetErr e) ;; mret (RetErr e)
  | _ =>
    let* ofile := get_file fd in
    match ofile with
    | None => log_call call (RetErr EBADF) ;; mret (RetErr EBADF)
    | Some f =>
      put_file fd (resize (Z.to_nat length) x00 f) ;;
      log_call call (RetOk 0) ;; mret (RetOk 0)
    end
  end.

(** [lseek (fd, offset, SEEK_SET)]. *)
Definition sys_lseek (fd : Z) (offset : Z) : M sysret :=
  let call := SysLseek fd offset in
  let* i := next_inject in
  match i with
  | Fail e => log_call call (RetErr e) ;; mret (RetErr e)
  | _ =>
    let* ofile := get_file fd in
    match ofile with
    | None => log_call call (RetErr EBADF) ;; mret (RetErr EBADF)
    | Some _ => put_pos fd offset ;; log_call call (RetOk offset) ;; mret (RetOk offset)
    end
  end.

(** A descriptor no open file uses, and never one of 0, 1, 2. *)
Definition fresh_fd (files : gmap Z (list byte)) : Z :=
  foldr Z.max 2 (map_to_list files).*1 + 1.

(** Modelled from the spec: [_vte_mkstemp] is declared in [vteutils.h] and
    defined outside [vtestream-file.h].  The spec has the store created
    lazily, empty and private to the stream, and names the failure to
    create it; the caller tests the result against -1.  So: a descriptor
    that no open file uses, on a new empty file, or -1. *)
Definition sys_mkstemp : M Z :=
  let* i := next_inject in
  match i with
  | Fail e => log_call SysMkstemp (RetErr e) ;; mret (-1)
  | _ => fun os =>
    let fd := fresh_fd (os_files os) in
    (put_file fd [] ;; put_pos fd 0 ;; log_call SysMkstemp (RetOk fd) ;; mret fd) os
  end.

(** The copy loop of [g_output_stream_splice]: the input is read and
    written to the sink chunk by chunk, one scripted event per chunk.
    [Normal] copies all that is left, [Short n] copies a chunk of at most
    [n] bytes and goes on if bytes remain ([Short 0] is a read of no bytes,
    the end of the input), [Fail e] is an error of the sink or a
    cancellation: the copy stops, and the chunks delivered before it stay
    delivered.  The result is the error if any, the bytes delivered and the
    events left. *)
Fixpoint splice_chunks (script : list inject) (rest : list byte)
  : option errno * list byte * list inject :=
  match script with
  | [] => (None, rest, [])
  | Normal :: sc => (None, rest, sc)
  | Fail e :: sc => (Some e, [], sc)
  | Short n :: sc =>
    let chunk := take n rest in
    match n, drop n rest with
    | S _, _ :: _ =>
      let '(err, more, sc') := splice_chunks sc (drop n rest) in
      (err, chunk ++ more, sc')
    | _, _ => (None, chunk, sc)
    end
  end.

(** [g_output_stream_splice] from the descriptor's file position towards
    the end of the file into the sink.  The call is logged once, with the
    number of bytes copied or the error; the file position moves past the
    bytes that were read. *)
Definition sys_splice (fd : Z) (output : list byte) : M (bool * list byte) :=
  let* ofile := get_file fd in
  match ofile with
  | None =>
    let* i := next_inject in
    match i with
    | Fail e => log_call (SysSplice fd) (RetErr e) ;; mret (false, output)
    | _ => log_call (SysSplice fd) (RetErr EBADF) ;; mret (false, output)
    end
  | Some f =>
    let* p := get_pos fd in
    fun os =>
      let '(err, sent, sc) := splice_chunks (os_script os) (drop (Z.to_nat p) f) in
      let os' := with_script sc os in
      match err with
      | Some e =>
        (put_pos fd (p + Z.of_nat (length sent)) ;;
         log_call (SysSplice fd) (RetErr e) ;;
         mret (false, output ++ sent)) os'
      | None =>
        (put_pos fd (p + Z.of_nat (length sent)) ;;
         log_call (SysSplice fd) (RetOk (Z.of_nat (length sent))) ;;
         mret (true, output ++ sent)) os'
      end
  end.

(** ** Durable I/O primitives

    The three retry loops are written with fuel.  Each of them is started
    with enough of it for the events still pending, so that running out of
    fuel does not occur (see [run_op_never_diverges]). *)

(** The [do ... while (ret == -1 && errno == EINTR)] of [_xtruncate]. *)
Fixpoint xtruncate_loop (fuel : nat) (fd offset : Z) : M unit :=
  match fuel with
  | O => diverge
  | S fuel' =>
    let* ret := sys_ftruncate fd offset in
    match ret with
    | RetErr EINTR => xtruncate_loop fuel' fd offset
    | _ => mret tt
    end
  end.

Definition _xtruncate (fd offset : Z) : M unit :=
  if fd =? 0 then mret tt
  else let* n := pending in xtruncate_loop (S n) fd offset.

(** The loop of [_xpread]; [buf] is what has been stored through [data] so
    far.  Every iteration consumes a scripted event or transfers a byte. *)
Fixpoint xpread_loop (fuel : nat) (fd len offset total : Z) (buf : list byte)
  : M (Z * list byte) :=
  match fuel with
  | O => diverge
  | S fuel' =>
    if len =? 0 then mret (total, buf)
    else
      let* '(ret, bytes) := sys_pread fd len offset in
      match ret with
      | RetErr EINTR => xpread_loop fuel' fd len offset total buf
      | RetErr _ => mret (total, buf)
      | RetOk r =>
        if r =? 0 then mret (total, buf)
        else xpread_loop fuel' fd (gsize_sub len r) (gsize_add offset r)
                         (gsize_add total r) (buf ++ bytes)
      end
  end.

Definition _xpread (fd len offset : Z) : M (Z * list byte) :=
  if negb (len =? 0) && (fd =? 0) then mret (0, [])
  else let* n := pending in
       xpread_loop (S (n + Z.to_nat len)) fd len offset 0 [].

(** The loop of [_xpwrite]; [data], [len] and [offset] advance together. *)
Fixpoint xpwrite_loop (fuel : nat) (fd : Z) (data : list byte) (len offset : Z)
                      (truncated : bool) : M unit :=
  match fuel with
  | O => diverge
  | S fuel' =>
    if len =? 0 then mret tt
    else
      let* ret := sys_pwrite fd data len offset in
      match ret with
      | RetErr EINTR => xpwrite_loop fuel' fd data len offset truncated
      | RetErr EINVAL =>
        if truncated then mret tt
        else _xtruncate fd offset ;;
             xpwrite_loop fuel' fd data len offset true
      | RetErr _ => mret tt
      | RetOk r =>
        if r =? 0 then mret tt
        else xpwrite_loop fuel' fd (drop (Z.to_nat r) data) (gsize_sub len r)
                          (gsize_add offset r) truncated
      end
  end.

(** [g_assert (fd || !len)], then the loop. *)
Definition _xpwrite (fd : Z) (data : list byte) (len offset : Z) : M unit :=
  if (fd =? 0) && negb (len =? 0) then abort
  else let* n := pending in
       xpwrite_loop (S (S n)) fd data len offset false.

Definition _xwrite_contents (fd : Z) (output : list byte) : M (bool * list byte) :=
  if fd =? 0 then mret (true, output)
  else sys_splice fd output.

(** ** The stream *)

Record VteFileStream := mkStream {
  fd0 : Z;
  fd1 : Z;
  offset0 : Z;
  offset1 : Z;
  head : Z
}.

(** [g_object_new] hands out zero-filled instance memory. *)
Definition _vte_file_stream_new : VteFileStream := mkStream 0 0 0 0 0.

Definition _vte_file_stream_ensure_fd0 (stream : VteFileStream) : M VteFileStream :=
  if negb (fd0 stream =? 0) then mret stream
  else
    let* fd := sys_mkstemp in
    if fd =? -1 then mret stream
    else mret (mkStream fd (fd1 stream) (offset0 stream) (offset1 stream) (head stream)).

Definition _vte_file_stream_reset (stream : VteFileStream) (offset : Z) : M VteFileStream :=
  (if negb (fd0 stream =? 0) then _xtruncate (fd0 stream) 0 else mret tt) ;;
  (if negb (fd1 stream =? 0) then _xtruncate (fd1 stream) 0 else mret tt) ;;
  mret (mkStream (fd0 stream) (fd1 stream) offset offset offset).

Definition _vte_file_stream_append (stream : VteFileStream) (data : list byte) (len : Z)
  : M VteFileStream :=
  let* stream := _vte_file_stream_ensure_fd0 stream in
  _xpwrite (fd0 stream) data len (gsize_sub (head stream) (offset0 stream)) ;;
  mret (mkStream (fd0 stream) (fd1 stream) (offset0 stream) (offset1 stream)
                 (gsize_add (head stream) len)).

(** The second half of [_vte_file_stream_read]: the read from [fd[0]]. *)
Definition read_current (stream : VteFileStream) (offset len : Z) (buf : list byte)
  : M (bool * list byte) :=
  let* '(l, bytes) := _xpread (fd0 stream) len (gsize_sub offset (offset0 stream)) in
  let len := gsize_sub len l in
  if len =? 0 then mret (true, buf ++ bytes) else mret (false, buf ++ bytes).

Definition _vte_file_stream_read (stream : VteFileStream) (offset len : Z)
  : M (bool * list byte) :=
  if offset <? offset1 stream then mret (false, [])
  else if offset <? offset0 stream then
    let* '(l, bytes) := _xpread (fd1 stream) len (gsize_sub offset (offset1 stream)) in
    let offset := gsize_add offset l in
    let len := gsize_sub len l in
    if len =? 0 then mret (true, bytes)
    else read_current stream offset len bytes
  else read_current stream offset len [].

Definition _vte_file_stream_swap_fds (stream : VteFileStream) : VteFileStream :=
  mkStream (fd1 stream) (fd0 stream) (offset0 stream) (offset1 stream) (head stream).

Definition _vte_file_stream_truncate (stream : VteFileStream) (offset : Z) : M VteFileStream :=
  let* stream :=
    if offset <? offset1 stream then
      _xtruncate (fd1 stream) 0 ;;
      mret (mkStream (fd0 stream) (fd1 stream) (offset0 stream) offset (head stream))
    else mret stream in
  let* stream :=
    if offset <? offset0 stream then
      _xtruncate (fd0 stream) 0 ;;
      mret (_vte_file_stream_swap_fds
              (mkStream (fd0 stream) (fd1 stream) (offset1 stream) (offset1 stream)
                        (head stream)))
    else
      _xtruncate (fd0 stream) (gsize_sub offset (offset0 stream)) ;;
      mret stream in
  mret (mkStream (fd0 stream) (fd1 stream) (offset0 stream) (offset1 stream) offset).

Definition _vte_file_stream_new_page (stream : VteFileStream) : M VteFileStream :=
  let stream := mkStream (fd0 stream) (fd1 stream) (head stream) (offset0 stream)
                         (head stream) in
  let stream := _vte_file_stream_swap_fds stream in
  _xtruncate (fd0 stream) 0 ;;
  mret stream.

Definition _vte_file_stream_head (stream : VteFileStream) : Z := head stream.

Definition _vte_file_stream_write_contents (stream : VteFileStream) (output : list byte)
                                           (offset : Z) : M (bool * list byte) :=
  if offset <? offset1 stream then mret (false, output)
  else
    let current (output : list byte) (offset : Z) :=
      sys_lseek (fd0 stream) (gsize_sub offset (offset0 stream)) ;;
      _xwrite_contents (fd0 stream) output in
    if offset <? offset0 stream then
      sys_lseek (fd1 stream) (gsize_sub offset (offset1 stream)) ;;
      let* '(ok, output) := _xwrite_contents (fd1 stream) output in
      if negb ok then mret (false, output)
      else current output (offset0 stream)
    else current output offset.

(** * Specification vocabulary *)

(** ** Outcomes of a computation *)

(** [returns m os Q]: run from [os], [m] neither stops at an assertion nor
    runs out of fuel, and its value and final state satisfy [Q]. *)
Definition returns {A} (m : M A) (os : OS) (Q : A -> OS -> Prop) : Prop :=
  match m os with
  | Done (a, os') => Q a os'
  | _ => False
  end.

(** What a call that works on descriptor [fd] leaves alone: it consumes
    events, extends the log, closes nothing and touches no other file. *)
Record os_frame (fd : Z) (os os' : OS) : Prop := mk_os_frame {
  fr_script : os_script os' `suffix_of` os_script os;
  fr_files : forall fd', fd' <> fd -> os_files os' !! fd' = os_files os !! fd';
  fr_open : forall fd', is_Some (os_files os !! fd') -> is_Some (os_files os' !! fd');
  fr_log : os_log os `prefix_of` os_log os'
}.

(** The scripted event at the head of the queue lets the call proceed. *)
Definition proceeds (os : OS) : Prop :=
  match os_script os with
  | Fail _ :: _ => False
  | _ => True
  end.

(** Events under which every transfer is eventually completed: no error,
    and every short transfer moves at least one byte. *)
Definition transfers (i : inject) : Prop :=
  match i with
  | Normal | Short (S _) => True
  | _ => False
  end.

Definition reliable (os : OS) : Prop := Forall transfers (os_script os).

(** ** States after one system call *)

(** The call [c] consumed an event and returned [r]. *)
Definition logged (c : syscall) (r : sysret) (os : OS) : OS :=
  mkOS (os_files os) (os_pos os) (tail (os_script os)) (os_log os ++ [(c, r)]).

(** The file of [fd] now holds [f]. *)
Definition stored (fd : Z) (f : list byte) (os : OS) : OS :=
  mkOS (<[fd := f]> (os_files os)) (os_pos os) (os_script os) (os_log os).

(** Case analysis on the event the next system call consumes. *)
Ltac os_cases os :=
  destruct os as [files pos script log];
  unfold proceeds, logged, stored in *; cbn [os_script os_files os_pos os_log] in *;
  unfold mbind, next_inject, get_file, put_file, log_call, mret, with_script;
  cbn [os_script os_files os_pos os_log];
  destruct script as [|[|?e|?k] ?sc]; cbn [os_script os_files os_pos os_log tail];
  try tauto; try discriminate.

(** What [pwrite] moves when it proceeds: all of [len], or the scripted
    short count. *)
Definition moved (os : OS) (len : Z) : Z :=
  match os_script os with
  | i :: _ => short_count i len
  | [] => len
  end.

(** Fuel that lets the write loop finish: one iteration per pending event,
    one for the write that proceeds unhindered, one for the exit test. *)
Definition xpwrite_fuel (os : OS) (len : Z) : nat :=
  if len =? 0 then 1%nat else (length (os_script os) + 2)%nat.

(** The next event makes [_vte_mkstemp] return -1. *)
Definition mkstemp_fails (os : OS) : bool :=
  match os_script os with
  | Fail _ :: _ => true
  | _ => false
  end.

(** The state after [_vte_mkstemp] has created a store. *)
Definition created (os : OS) : OS :=
  let fd := fresh_fd (os_files os) in
  mkOS (<[fd := []]> (os_files os)) (<[fd := 0]> (os_pos os)) (tail (os_script os))
       (os_log os ++ [(SysMkstemp, RetOk fd)]).

Ltac splits := repeat match goal with |- _ /\ _ => split end.

(** ** Statements the code is held against *)

(** The unconditional reading of "append advances [head] by [len]". *)
Definition append_always_advances (stream : VteFileStream) (data : list byte) (os : OS) : Prop :=
  exists stream' os',
    _vte_file_stream_append stream data (Z.of_nat (length data)) os = Done (stream', os')
    /\ head stream' = gsize_add (head stream) (Z.of_nat (length data)).


(** "A truncation to an offset of the current generation changes [head]
    only and leaves the previous store alone", in whatever state. *)
Definition truncate_keeps_previous (stream : VteFileStream) (offset : Z) (os : OS) : Prop :=
  offset0 stream <= offset <= head stream ->
  exists os',
    _vte_file_stream_truncate stream offset os
    = Done (mkStream (fd0 stream) (fd1 stream) (offset0 stream) (offset1 stream) offset, os')
    /\ os_files os' !! fd1 stream = os_files os !! fd1 stream.

(** A sequence of appends with nothing in between. *)
Fixpoint append_all (stream : VteFileStream) (ds : list (list byte)) : M VteFileStream :=
  match ds with
  | [] => mret stream
  | d :: ds =>
    let* stream := _vte_file_stream_append stream d (Z.of_nat (length d)) in
    append_all stream ds
  end.

(** The state of a stream reset to [base] that has since then only been
    appended to, [acc] being everything appended. *)
Definition appended (base : Z) (acc : list byte) (stream : VteFileStream) (os : OS) : Prop :=
  offset0 stream = base /\ offset1 stream = base
  /\ head stream = gsize_add base (Z.of_nat (length acc))
  /\ reliable os
  /\ ((fd0 stream = 0 /\ acc = [])
      \/ (fd0 stream <> 0 /\ os_files os !! fd0 stream = Some acc)).

Definition total_length (ds : list (list byte)) : Z := Z.of_nat (length (concat ds)).

Definition AAAA : list byte := [x41; x41; x41; x41].
Definition BBBB : list byte := [x42; x42; x42; x42].
Definition CCCC : list byte := [x43; x43; x43; x43].

(** append "AAAA", rotate, append "BBBB", rotate, append "CCCC", on a fresh
    stream at base 0. *)
Definition rotation_trace : M VteFileStream :=
  let* stream := _vte_file_stream_reset _vte_file_stream_new 0 in
  let* stream := _vte_file_stream_append stream AAAA 4 in
  let* stream := _vte_file_stream_new_page stream in
  let* stream := _vte_file_stream_append stream BBBB 4 in
  let* stream := _vte_file_stream_new_page stream in
  _vte_file_stream_append stream CCCC 4.

(** What the spec expects after the trace. *)
Definition rotation_trace_claim : Prop :=
  exists stream os,
    rotation_trace os_boot = Done (stream, os)
    /\ offset1 stream = 8
    /\ (exists buf os', _vte_file_stream_read stream 4 4 os = Done ((false, buf), os'))
    /\ (exists os', _vte_file_stream_read stream 8 4 os = Done ((true, CCCC), os')).

(** ** Reachable states *)

(** The public operations of the stream class. *)
Inductive op :=
| OpReset (offset : Z)
| OpAppend (data : list byte)
| OpRead (offset len : Z)
| OpTruncate (offset : Z)
| OpNewPage
| OpHead
| OpWriteContents (output : list byte) (offset : Z).

Definition run_op (o : op) (stream : VteFileStream) : M VteFileStream :=
  match o with
  | OpReset offset => _vte_file_stream_reset stream offset
  | OpAppend data => _vte_file_stream_append stream data (Z.of_nat (length data))
  | OpRead offset len => _vte_file_stream_read stream offset len ;; mret stream
  | OpTruncate offset => _vte_file_stream_truncate stream offset
  | OpNewPage => _vte_file_stream_new_page stream
  | OpHead => let _ := _vte_file_stream_head stream in mret stream
  | OpWriteContents output offset =>
    _vte_file_stream_write_contents stream output offset ;; mret stream
  end.

(** The arguments are values of the C parameter types. *)
Definition op_typed (o : op) : Prop :=
  match o with
  | OpReset offset | OpTruncate offset | OpWriteContents _ offset => is_gsize offset
  | OpAppend data => is_gsize (Z.of_nat (length data))
  | OpRead offset len => is_gsize offset /\ is_gsize len
  | OpNewPage | OpHead => True
  end.

(** States reached from a new stream by operations that [allowed] admits;
    between two operations the environment may schedule any events. *)
Inductive reachable (allowed : op -> VteFileStream -> Prop) : VteFileStream -> OS -> Prop :=
| reach_new os : reachable allowed _vte_file_stream_new os
| reach_env stream os sc :
    reachable allowed stream os -> reachable allowed stream (with_script sc os)
| reach_step stream os o stream' os' :
    reachable allowed stream os -> op_typed o -> allowed o stream ->
    run_op o stream os = Done (stream', os') ->
    reachable allowed stream' os'.

Definition any_op (o : op) (stream : VteFileStream) : Prop := True.

(** An append that keeps [head] within the [gsize] range. *)
Definition no_wrap (o : op) (stream : VteFileStream) : Prop :=
  match o with
  | OpAppend data => head stream + Z.of_nat (length data) < gsize_modulus
  | _ => True
  end.

(** The invariant of the data model. *)
Definition stream_inv (stream : VteFileStream) : Prop :=
  offset1 stream <= offset0 stream <= head stream.

(** ** Reading the log *)



(** The state after [k] interrupted attempts of [call]. *)
Definition interrupted (k : nat) (call : syscall) (os : OS) : OS :=
  mkOS (os_files os) (os_pos os) (drop k (os_script os))
       (os_log os ++ replicate k (call, RetErr EINTR)).

(** No descriptor was closed. *)
Definition opens_kept (os os' : OS) : Prop :=
  forall fd, is_Some (os_files os !! fd) -> is_Some (os_files os' !! fd).

(** Each descriptor of the record is absent or open, and the two are
    distinct unless absent. *)
Definition handles_ok (stream : VteFileStream) (os : OS) : Prop :=
  (fd0 stream = 0 \/ is_Some (os_files os !! fd0 stream))
  /\ (fd1 stream = 0 \/ is_Some (os_files os !! fd1 stream))
  /\ (fd0 stream = fd1 stream -> fd0 stream = 0).

(** ** Stores as the export sees them *)

(** What the store behind descriptor [fd] holds; an absent store ([fd] 0)
    holds nothing. *)
Definition store_of (os : OS) (fd : Z) : option (list byte) :=
  if fd =? 0 then Some [] else os_files os !! fd.

(** * Reasoning layer *)

(** ** [gsize] facts *)

Lemma gsize_wrap_small z : is_gsize z -> gsize_wrap z = z.
Proof. intros H. apply Z.mod_small. exact H. Qed.

Lemma gsize_sub_small a b : 0 <= a - b < gsize_modulus -> gsize_sub a b = a - b.
Proof. intros H. apply Z.mod_small. exact H. Qed.

Lemma gsize_add_small a b : 0 <= a + b < gsize_modulus -> gsize_add a b = a + b.
Proof. intros H. apply Z.mod_small. exact H. Qed.

Lemma gsize_sub_diag a : gsize_sub a a = 0.
Proof. unfold gsize_sub, gsize_wrap. rewrite Z.sub_diag. reflexivity. Qed.

Lemma gsize_sub_add_wrap a b :
  is_gsize b -> gsize_sub (gsize_add a b) a = b.
Proof.
  intros H. unfold gsize_sub, gsize_add, gsize_wrap.
  rewrite Zminus_mod_idemp_l.
  replace (a + b - a) with b by lia. apply Z.mod_small. exact H.
Qed.

Lemma gsize_wrap_range z : is_gsize (gsize_wrap z).
Proof. apply Z.mod_pos_bound. reflexivity. Qed.

(** ** A weakest-precondition reading of the monad *)

Lemma returns_ret {A} (a : A) os (Q : A -> OS -> Prop) : Q a os -> returns (mret a) os Q.
Proof. intros H. exact H. Qed.

Lemma returns_bind {A B} (m : M A) (k : A -> M B) os (Q : B -> OS -> Prop) :
  returns m os (fun a os1 => returns (k a) os1 Q) -> returns (mbind m k) os Q.
Proof.
  unfold returns, mbind. destruct (m os) as [[a os1]| |]; auto.
Qed.

Lemma returns_mono {A} (m : M A) os (P Q : A -> OS -> Prop) :
  returns m os P -> (forall a os', P a os' -> Q a os') -> returns m os Q.
Proof.
  unfold returns. destruct (m os) as [[a os1]| |]; auto.
Qed.

Lemma returns_Done {A} (m : M A) os (Q : A -> OS -> Prop) :
  returns m os Q <-> exists a os', m os = Done (a, os') /\ Q a os'.
Proof.
  unfold returns. split.
  - destruct (m os) as [[a os1]| |]; [eauto | tauto..].
  - intros (a & os' & -> & H). exact H.
Qed.

Lemma returns_eq {A} (m : M A) os a os' : m os = Done (a, os') ->
  forall Q : A -> OS -> Prop, Q a os' -> returns m os Q.
Proof. intros H Q HQ. apply returns_Done. eauto. Qed.

Lemma returns_and {A} (m : M A) os (P Q : A -> OS -> Prop) :
  returns m os P -> returns m os Q -> returns m os (fun a os' => P a os' /\ Q a os').
Proof.
  unfold returns. destruct (m os) as [[a os1]| |]; tauto.
Qed.

Lemma mbind_Done {A B} (m : M A) (k : A -> M B) os r :
  mbind m k os = Done r -> exists a os1, m os = Done (a, os1) /\ k a os1 = Done r.
Proof.
  unfold mbind. destruct (m os) as [[a os1]| |]; [eauto | discriminate..].
Qed.

(** ** What a call that works on descriptor [fd] leaves alone *)

Lemma os_frame_refl fd os : os_frame fd os os.
Proof. split; auto; reflexivity. Qed.

Lemma os_frame_trans fd os1 os2 os3 :
  os_frame fd os1 os2 -> os_frame fd os2 os3 -> os_frame fd os1 os3.
Proof.
  intros [s1 f1 o1 l1] [s2 f2 o2 l2]. split.
  - etransitivity; eassumption.
  - intros fd' H. rewrite f2, f1; auto.
  - auto.
  - etransitivity; eassumption.
Qed.

Lemma os_frame_script_length fd os os' :
  os_frame fd os os' -> (length (os_script os') <= length (os_script os))%nat.
Proof. intros [H _ _ _]. apply suffix_length, H. Qed.

Lemma reliable_proceeds os : reliable os -> proceeds os.
Proof.
  unfold reliable, proceeds. destruct (os_script os) as [|[|e|k] sc]; auto.
  intros H. inversion H as [|? ? H1 H2]. exact H1.
Qed.

Lemma reliable_frame fd os os' : os_frame fd os os' -> reliable os -> reliable os'.
Proof.
  intros [[k Hk] _ _ _] H. unfold reliable in *. rewrite Hk in H.
  apply Forall_app in H. tauto.
Qed.

(** ** The system calls, case by case *)

Lemma sys_ftruncate_fail fd n os e sc :
  os_script os = Fail e :: sc ->
  sys_ftruncate fd n os = Done (RetErr e, logged (SysFtruncate fd n) (RetErr e) os).
Proof.
  intros H. unfold sys_ftruncate. os_cases os. congruence.
Qed.

Lemma sys_ftruncate_badf fd n os :
  proceeds os -> os_files os !! fd = None ->
  sys_ftruncate fd n os = Done (RetErr EBADF, logged (SysFtruncate fd n) (RetErr EBADF) os).
Proof.
  intros Hp Hf. unfold sys_ftruncate. os_cases os; rewrite Hf; reflexivity.
Qed.

Lemma sys_ftruncate_ok fd n os f :
  proceeds os -> os_files os !! fd = Some f ->
  sys_ftruncate fd n os =
  Done (RetOk 0, stored fd (resize (Z.to_nat n) x00 f) (logged (SysFtruncate fd n) (RetOk 0) os)).
Proof.
  intros Hp Hf. unfold sys_ftruncate. os_cases os; rewrite Hf; reflexivity.
Qed.

Lemma sys_pwrite_fail fd data len off os e sc :
  os_script os = Fail e :: sc ->
  sys_pwrite fd data len off os =
  Done (RetErr e, logged (SysPwrite fd data len off) (RetErr e) os).
Proof.
  intros H. unfold sys_pwrite. os_cases os. congruence.
Qed.

Lemma sys_pwrite_badf fd data len off os :
  proceeds os -> os_files os !! fd = None ->
  sys_pwrite fd data len off os =
  Done (RetErr EBADF, logged (SysPwrite fd data len off) (RetErr EBADF) os).
Proof.
  intros Hp Hf. unfold sys_pwrite. os_cases os; rewrite Hf; reflexivity.
Qed.

Lemma sys_pwrite_ok fd data len off os f :
  proceeds os -> os_files os !! fd = Some f ->
  let bytes := take (Z.to_nat (moved os len)) data in
  let n := Z.of_nat (length bytes) in
  sys_pwrite fd data len off os =
  Done (RetOk n, stored fd (file_write f off bytes)
                   (logged (SysPwrite fd data len off) (RetOk n) os)).
Proof.
  intros Hp Hf. unfold sys_pwrite, moved. os_cases os; rewrite Hf; reflexivity.
Qed.

Lemma sys_pread_fail fd len off os e sc :
  os_script os = Fail e :: sc ->
  sys_pread fd len off os =
  Done ((RetErr e, []), logged (SysPread fd len off) (RetErr e) os).
Proof.
  intros H. unfold sys_pread. os_cases os. congruence.
Qed.

Lemma sys_pread_badf fd len off os :
  proceeds os -> os_files os !! fd = None ->
  sys_pread fd len off os =
  Done ((RetErr EBADF, []), logged (SysPread fd len off) (RetErr EBADF) os).
Proof.
  intros Hp Hf. unfold sys_pread. os_cases os; rewrite Hf; reflexivity.
Qed.

Lemma sys_pread_ok fd len off os f :
  proceeds os -> os_files os !! fd = Some f ->
  let bytes := take (Z.to_nat (moved os len)) (drop (Z.to_nat off) f) in
  let n := Z.of_nat (length bytes) in
  sys_pread fd len off os =
  Done ((RetOk n, bytes), logged (SysPread fd len off) (RetOk n) os).
Proof.
  intros Hp Hf. unfold sys_pread, moved. os_cases os; rewrite Hf; reflexivity.
Qed.

(** Every call is one of the three cases. *)
Lemma os_call_cases os fd :
  (exists e sc, os_script os = Fail e :: sc)
  \/ (proceeds os /\ os_files os !! fd = None)
  \/ (proceeds os /\ exists f, os_files os !! fd = Some f).
Proof.
  unfold proceeds. destruct (os_script os) as [|[|e|k] sc]; eauto;
    destruct (os_files os !! fd); eauto.
Qed.

Lemma logged_frame fd c r os : os_frame fd os (logged c r os).
Proof.
  split; cbn.
  - destruct (os_script os); cbn; [reflexivity | apply suffix_cons_r; reflexivity].
  - reflexivity.
  - auto.
  - apply prefix_app_r. reflexivity.
Qed.

Lemma stored_frame fd f os : os_frame fd os (stored fd f os).
Proof.
  split; cbn.
  - reflexivity.
  - intros fd' Hne. apply lookup_insert_ne. auto.
  - intros fd' H'. destruct (decide (fd = fd')) as [->|Hne].
    + rewrite lookup_insert_eq. eauto.
    + rewrite lookup_insert_ne; auto.
  - reflexivity.
Qed.

Lemma logged_script_length c r os :
  os_script os <> [] ->
  (length (os_script (logged c r os)) < length (os_script os))%nat.
Proof. cbn. destruct (os_script os); cbn; [congruence | lia]. Qed.

Lemma moved_range os len : 0 <= len -> 0 <= moved os len <= len.
Proof.
  unfold moved, short_count. destruct (os_script os) as [|[|e|k] sc]; lia.
Qed.

Lemma moved_reliable os len : reliable os -> 0 < len -> 0 < moved os len.
Proof.
  unfold reliable, moved, short_count. destruct (os_script os) as [|[|e|[|k]] sc];
    try lia; intros H; inversion H as [|? ? H1 H2]; cbn in H1; try tauto; lia.
Qed.

(** ** File contents *)

Lemma file_write_nonempty f off bytes :
  bytes <> [] ->
  file_write f off bytes =
  resize (Z.to_nat off) x00 f ++ bytes ++ drop (Z.to_nat off + length bytes)%nat f.
Proof. destruct bytes; [congruence | reflexivity]. Qed.

Lemma file_write_end f bytes : file_write f (Z.of_nat (length f)) bytes = f ++ bytes.
Proof.
  destruct bytes as [|b bytes]; [cbn; rewrite app_nil_r; reflexivity|].
  rewrite file_write_nonempty by discriminate.
  rewrite Nat2Z.id, resize_all, drop_ge by lia. rewrite app_nil_r. reflexivity.
Qed.

Lemma file_write_split f off data n :
  (0 < n <= length data)%nat -> 0 <= off ->
  file_write (file_write f off (take n data)) (off + Z.of_nat n) (drop n data)
  = file_write f off data.
Proof.
  intros Hn Hoff.
  destruct (decide (drop n data = [])) as [Hd|Hd].
  - rewrite Hd. cbn. f_equal. apply take_ge.
    apply (f_equal length) in Hd. rewrite length_drop in Hd. cbn in Hd. lia.
  - assert (Ht : take n data <> []).
    { intros Ht. apply (f_equal length) in Ht. rewrite length_take in Ht. cbn in Ht. lia. }
    assert (Hdata : data <> []).
    { intros ->. cbn in Hn. lia. }
    rewrite (file_write_nonempty _ _ _ Hd), (file_write_nonempty _ _ _ Ht),
      (file_write_nonempty _ _ _ Hdata).
    set (R := resize (Z.to_nat off) x00 f).
    assert (HR : length R = Z.to_nat off) by apply length_resize.
    assert (Hlt : length (take n data) = n) by (rewrite length_take; lia).
    rewrite Hlt.
    replace (Z.to_nat (off + Z.of_nat n)) with (length (R ++ take n data))
      by (rewrite length_app, HR, Hlt; lia).
    rewrite (app_assoc R (take n data)).
    rewrite resize_app by reflexivity.
    rewrite <- drop_drop, drop_app_length, drop_drop.
    rewrite <- (app_assoc R), (app_assoc (take n data)), take_drop.
    do 3 f_equal. rewrite length_drop. lia.
Qed.

Lemma take_take_rest (l : list byte) (a len : nat) :
  (a <= len)%nat ->
  take a l ++ take (len - length (take a l)) (drop (length (take a l)) l) = take len l.
Proof.
  intros H. rewrite length_take.
  destruct (Nat.le_ge_cases a (length l)) as [Hl|Hl].
  - rewrite Nat.min_l by lia. rewrite take_take_drop. f_equal. lia.
  - rewrite Nat.min_r by lia. rewrite drop_ge by lia. rewrite take_nil, app_nil_r.
    rewrite !take_ge by lia. reflexivity.
Qed.

(** ** [_xtruncate] *)

Lemma returns_pending {A} (k : nat -> M A) os (Q : A -> OS -> Prop) :
  returns (k (length (os_script os))) os Q -> returns (mbind pending k) os Q.
Proof. intros H. exact H. Qed.

Lemma mbind_pending {A} (k : nat -> M A) os :
  mbind pending k os = k (length (os_script os)) os.
Proof. reflexivity. Qed.

Lemma xtruncate_loop_frame fuel : forall fd n os,
  (length (os_script os) < fuel)%nat ->
  returns (xtruncate_loop fuel fd n) os (fun _ os' => os_frame fd os os').
Proof.
  induction fuel as [|fuel IH]; intros fd n os Hfuel; [lia|].
  cbn [xtruncate_loop]. apply returns_bind.
  destruct (os_call_cases os fd) as [(e & sc & Hs)|[[Hp Hf]|[Hp (f & Hf)]]].
  - eapply returns_eq; [apply (sys_ftruncate_fail _ _ _ _ _ Hs)|].
    assert (Hlen : (length (os_script (logged (SysFtruncate fd n) (RetErr e) os)) < fuel)%nat).
    { assert (Hne : os_script os <> []) by congruence.
      pose proof (logged_script_length (SysFtruncate fd n) (RetErr e) os Hne). lia. }
    destruct e; try (apply returns_ret, logged_frame).
    eapply returns_mono; [apply IH, Hlen|].
    intros [] os' H. eapply os_frame_trans; [apply logged_frame | exact H].
  - eapply returns_eq; [apply (sys_ftruncate_badf _ _ _ Hp Hf)|].
    apply returns_ret, logged_frame.
  - eapply returns_eq; [apply (sys_ftruncate_ok _ _ _ _ Hp Hf)|].
    apply returns_ret. eapply os_frame_trans; [apply logged_frame|].
    apply stored_frame.
Qed.

Lemma _xtruncate_frame fd n os :
  returns (_xtruncate fd n) os (fun _ os' => os_frame fd os os').
Proof.
  unfold _xtruncate. destruct (fd =? 0).
  - apply returns_ret, os_frame_refl.
  - apply returns_pending. apply xtruncate_loop_frame. lia.
Qed.

Lemma _xtruncate_absent n os : _xtruncate 0 n os = Done (tt, os).
Proof. reflexivity. Qed.

Lemma _xtruncate_ok fd n os f :
  fd <> 0 -> proceeds os -> os_files os !! fd = Some f ->
  _xtruncate fd n os =
  Done (tt, stored fd (resize (Z.to_nat n) x00 f) (logged (SysFtruncate fd n) (RetOk 0) os)).
Proof.
  intros Hfd Hp Hf. unfold _xtruncate.
  destruct (Z.eqb_spec fd 0) as [|_]; [contradiction|].
  rewrite mbind_pending. cbn [xtruncate_loop].
  unfold mbind. rewrite (sys_ftruncate_ok _ _ _ _ Hp Hf). reflexivity.
Qed.

Lemma _xtruncate_badf fd n os :
  proceeds os -> os_files os !! fd = None ->
  _xtruncate fd n os = Done (tt, os) \/
  _xtruncate fd n os = Done (tt, logged (SysFtruncate fd n) (RetErr EBADF) os).
Proof.
  intros Hp Hf. unfold _xtruncate.
  destruct (Z.eqb_spec fd 0) as [|_]; [left; reflexivity|right].
  rewrite mbind_pending. cbn [xtruncate_loop].
  unfold mbind. rewrite (sys_ftruncate_badf _ _ _ Hp Hf). reflexivity.
Qed.

(** ** [_xpwrite] *)

Lemma xpwrite_loop_frame fuel : forall fd data len off tr os,
  len = Z.of_nat (length data) -> len < gsize_modulus ->
  (xpwrite_fuel os len <= fuel)%nat ->
  returns (xpwrite_loop fuel fd data len off tr) os (fun _ os' => os_frame fd os os').
Proof.
  induction fuel as [|fuel IH]; intros fd data len off tr os Hlen Hmax Hfuel.
  { unfold xpwrite_fuel in Hfuel. destruct (len =? 0); lia. }
  cbn [xpwrite_loop]. unfold xpwrite_fuel in Hfuel.
  destruct (Z.eqb_spec len 0) as [Hz|Hnz]; [apply returns_ret, os_frame_refl|].
  apply returns_bind.
  destruct (os_call_cases os fd) as [(e & sc & Hs)|[[Hp Hf]|[Hp (f & Hf)]]].
  - eapply returns_eq; [apply (sys_pwrite_fail _ _ _ _ _ _ _ Hs)|].
    set (os1 := logged _ _ os).
    assert (Hfr : os_frame fd os os1) by apply logged_frame.
    assert (Hl1 : (length (os_script os1) < length (os_script os))%nat).
    { apply logged_script_length. congruence. }
    assert (Hf1 : (xpwrite_fuel os1 len <= fuel)%nat).
    { unfold xpwrite_fuel. destruct (len =? 0); lia. }
    destruct e; try (apply returns_ret; exact Hfr).
    + eapply returns_mono; [apply (IH fd data len off tr os1 Hlen Hmax Hf1)|].
      intros [] os' H. eapply os_frame_trans; eassumption.
    + destruct tr; [apply returns_ret; exact Hfr|].
      apply returns_bind.
      eapply returns_mono; [apply _xtruncate_frame|].
      intros [] os2 H2.
      assert (Hf2 : (xpwrite_fuel os2 len <= fuel)%nat).
      { pose proof (os_frame_script_length _ _ _ H2).
        unfold xpwrite_fuel. destruct (len =? 0); lia. }
      eapply returns_mono; [apply (IH fd data len off true os2 Hlen Hmax Hf2)|].
      intros [] os' H. eapply os_frame_trans; [exact Hfr|].
      eapply os_frame_trans; eassumption.
  - eapply returns_eq; [apply (sys_pwrite_badf _ _ _ _ _ Hp Hf)|].
    apply returns_ret, logged_frame.
  - eapply returns_eq; [apply (sys_pwrite_ok _ _ _ _ _ _ Hp Hf)|].
    cbv beta iota.
    set (bytes := take (Z.to_nat (moved os len)) data).
    set (os1 := stored _ _ _).
    assert (Hfr : os_frame fd os os1).
    { eapply os_frame_trans; [apply logged_frame|]. apply stored_frame. }
    destruct (Z.eqb_spec (Z.of_nat (length bytes)) 0) as [|Hr];
      [apply returns_ret; exact Hfr|].
    assert (Hb : (length bytes <= length data)%nat).
    { unfold bytes. rewrite length_take. lia. }
    assert (Hsub : gsize_sub len (Z.of_nat (length bytes))
                   = Z.of_nat (length (drop (length bytes) data))).
    { rewrite length_drop, gsize_sub_small; lia. }
    rewrite Nat2Z.id.
    eapply returns_mono; [apply IH|].
    + exact Hsub.
    + rewrite Hsub, length_drop. lia.
    + unfold xpwrite_fuel. rewrite Hsub.
      destruct (Z.eqb_spec (Z.of_nat (length (drop (length bytes) data))) 0) as [|Hrest];
        [destruct (os_script os); cbn in *; lia|].
      destruct (os_script os) as [|i sc] eqn:Hs.
      * exfalso. apply Hrest. rewrite length_drop. unfold bytes, moved. rewrite Hs.
        rewrite length_take. lia.
      * unfold os1. cbn. rewrite Hs. cbn in *. lia.
    + intros [] os' H. eapply os_frame_trans; eassumption.
Qed.

Lemma _xpwrite_frame fd data len off os :
  len = Z.of_nat (length data) -> len < gsize_modulus ->
  fd <> 0 \/ len = 0 ->
  returns (_xpwrite fd data len off) os (fun _ os' => os_frame fd os os').
Proof.
  intros Hlen Hmax Hfd. unfold _xpwrite.
  replace ((fd =? 0) && negb (len =? 0)) with false.
  - apply returns_pending. apply xpwrite_loop_frame; auto.
    unfold xpwrite_fuel. destruct (len =? 0); lia.
  - destruct Hfd as [H|H].
    + apply Z.eqb_neq in H. rewrite H. reflexivity.
    + rewrite H. cbn. rewrite andb_false_r. reflexivity.
Qed.

Lemma _xpwrite_assert data len off os :
  len <> 0 -> _xpwrite 0 data len off os = Aborted.
Proof.
  intros H. unfold _xpwrite. apply Z.eqb_neq in H. rewrite H. reflexivity.
Qed.

(** On a reliable system the loop stores the whole of [data] at [off]. *)
Lemma xpwrite_loop_reliable fuel : forall fd data len off tr os f,
  reliable os -> os_files os !! fd = Some f ->
  len = Z.of_nat (length data) -> 0 <= off -> off + len < gsize_modulus ->
  (xpwrite_fuel os len <= fuel)%nat ->
  returns (xpwrite_loop fuel fd data len off tr) os (fun _ os' =>
    os_files os' = <[fd := file_write f off data]> (os_files os)
    /\ os_frame fd os os').
Proof.
  induction fuel as [|fuel IH]; intros fd data len off tr os f Hrel Hf Hlen Hoff Hmax Hfuel.
  { unfold xpwrite_fuel in Hfuel. destruct (len =? 0); lia. }
  cbn [xpwrite_loop]. unfold xpwrite_fuel in Hfuel.
  destruct (Z.eqb_spec len 0) as [Hz|Hnz].
  { apply returns_ret. split; [|apply os_frame_refl].
    assert (data = []) as -> by (apply length_zero_iff_nil; lia).
    cbn. symmetry. apply insert_id. exact Hf. }
  apply returns_bind.
  pose proof (reliable_proceeds _ Hrel) as Hp.
  eapply returns_eq; [apply (sys_pwrite_ok _ _ _ _ _ _ Hp Hf)|].
  cbv beta iota.
  set (bytes := take (Z.to_nat (moved os len)) data).
  set (os1 := stored _ _ _).
  assert (Hfr : os_frame fd os os1).
  { eapply os_frame_trans; [apply logged_frame|]. apply stored_frame. }
  assert (Hmv : 0 < moved os len <= len).
  { split; [apply moved_reliable; [exact Hrel|lia] | apply moved_range; lia]. }
  assert (Hb : (0 < length bytes <= length data)%nat).
  { unfold bytes. rewrite length_take. lia. }
  destruct (Z.eqb_spec (Z.of_nat (length bytes)) 0) as [|Hr]; [lia|].
  assert (Hsub : gsize_sub len (Z.of_nat (length bytes))
                 = Z.of_nat (length (drop (length bytes) data))).
  { rewrite length_drop, gsize_sub_small; unfold gsize_modulus in *; cbn in *; lia. }
  rewrite Nat2Z.id.
  rewrite (gsize_add_small off) by lia.
  eapply returns_mono.
  - apply (IH fd (drop (length bytes) data) _ _ tr os1 (file_write f off bytes)).
    + eapply reliable_frame; eassumption.
    + unfold os1. cbn. apply lookup_insert_eq.
    + exact Hsub.
    + lia.
    + rewrite Hsub, length_drop. lia.
    + unfold xpwrite_fuel. rewrite Hsub.
      destruct (Z.eqb_spec (Z.of_nat (length (drop (length bytes) data))) 0) as [|Hrest];
        [destruct (os_script os); cbn in *; lia|].
      destruct (os_script os) as [|i sc] eqn:Hs.
      * exfalso. apply Hrest. rewrite length_drop. unfold bytes, moved. rewrite Hs.
        rewrite length_take. lia.
      * unfold os1. cbn. rewrite Hs. cbn in *. lia.
  - intros [] os' [Hfiles H]. split; [|eapply os_frame_trans; eassumption].
    rewrite Hfiles. unfold os1. cbn. rewrite insert_insert_eq. f_equal.
    assert (Hbytes : bytes = take (length bytes) data).
    { unfold bytes. rewrite length_take.
      destruct (Nat.le_ge_cases (Z.to_nat (moved os len)) (length data)).
      - rewrite Nat.min_l by lia. reflexivity.
      - rewrite Nat.min_r by lia. rewrite !take_ge by lia. reflexivity. }
    rewrite Hbytes at 1.
    apply file_write_split; lia.
Qed.

Lemma _xpwrite_reliable fd data len off os f :
  fd <> 0 -> reliable os -> os_files os !! fd = Some f ->
  len = Z.of_nat (length data) -> 0 <= off -> off + len < gsize_modulus ->
  returns (_xpwrite fd data len off) os (fun _ os' =>
    os_files os' = <[fd := file_write f off data]> (os_files os)
    /\ os_frame fd os os').
Proof.
  intros Hfd Hrel Hf Hlen Hoff Hmax. unfold _xpwrite.
  apply Z.eqb_neq in Hfd. rewrite Hfd. cbn [andb].
  apply returns_pending. apply xpwrite_loop_reliable; auto.
  unfold xpwrite_fuel. destruct (len =? 0); lia.
Qed.

(** ** [_xpread] *)

Lemma _xpread_absent len off os : _xpread 0 len off os = Done ((0, []), os).
Proof.
  unfold _xpread. destruct (Z.eqb_spec len 0) as [->|H]; reflexivity.
Qed.

Lemma _xpread_zero fd off os : _xpread fd 0 off os = Done ((0, []), os).
Proof. reflexivity. Qed.

(** On a reliable system the loop delivers what the file holds of the
    requested range. *)
Lemma xpread_loop_reliable fuel : forall fd len off total buf os f,
  reliable os -> os_files os !! fd = Some f ->
  0 <= len -> 0 <= off -> off + len < gsize_modulus ->
  0 <= total -> total + len < gsize_modulus ->
  (length (os_script os) + Z.to_nat len + 1 <= fuel)%nat ->
  let got := take (Z.to_nat len) (drop (Z.to_nat off) f) in
  returns (xpread_loop fuel fd len off total buf) os (fun res os' =>
    res = (total + Z.of_nat (length got), buf ++ got)
    /\ os_files os' = os_files os /\ os_frame fd os os').
Proof.
  induction fuel as [|fuel IH];
    intros fd len off total buf os f Hrel Hf Hlen Hoff Hmax Htot Htmax Hfuel got; [lia|].
  cbn [xpread_loop].
  destruct (Z.eqb_spec len 0) as [Hz|Hnz].
  { apply returns_ret. subst got. rewrite Hz. cbn. rewrite app_nil_r, Z.add_0_r.
    split; [reflexivity|]. split; [reflexivity | apply os_frame_refl]. }
  apply returns_bind.
  pose proof (reliable_proceeds _ Hrel) as Hp.
  eapply returns_eq; [apply (sys_pread_ok _ _ _ _ _ Hp Hf)|].
  cbv beta iota.
  set (l := drop (Z.to_nat off) f) in *.
  set (bytes := take (Z.to_nat (moved os len)) l).
  set (os1 := logged _ _ os).
  assert (Hfr : os_frame fd os os1) by apply logged_frame.
  assert (Hmv : 0 < moved os len <= len).
  { split; [apply moved_reliable; [exact Hrel|lia] | apply moved_range; lia]. }
  assert (Hb : (length bytes <= Z.to_nat len)%nat).
  { unfold bytes. rewrite length_take. lia. }
  assert (Hgot : bytes ++ take (Z.to_nat len - length bytes) (drop (length bytes) l) = got).
  { unfold bytes, got. apply take_take_rest. lia. }
  destruct (Z.eqb_spec (Z.of_nat (length bytes)) 0) as [Hr|Hr].
  { apply returns_ret.
    assert (Hl : l = []).
    { apply length_zero_iff_nil. unfold bytes in Hr. rewrite length_take in Hr. lia. }
    subst got. rewrite Hl, take_nil. cbn. rewrite app_nil_r, Z.add_0_r.
    split; [reflexivity|]. split; [reflexivity | exact Hfr]. }
  rewrite (gsize_sub_small len), (gsize_add_small off), (gsize_add_small total) by lia.
  eapply returns_mono.
  - apply (IH fd _ _ _ (buf ++ bytes) os1 f); try lia.
    + eapply reliable_frame; eassumption.
    + exact Hf.
    + assert (Hl1 : (length (os_script os1) <= length (os_script os))%nat)
        by (eapply os_frame_script_length; exact Hfr).
      lia.
  - cbv beta. intros res os' (Hres & Hfiles & H).
    split; [|split; [rewrite Hfiles; reflexivity | eapply os_frame_trans; eassumption]].
    rewrite Hres. rewrite <- Hgot.
    replace (Z.to_nat (off + Z.of_nat (length bytes)))
      with (Z.to_nat off + length bytes)%nat by lia.
    replace (Z.to_nat (len - Z.of_nat (length bytes)))
      with (Z.to_nat len - length bytes)%nat by lia.
    unfold l. rewrite drop_drop.
    rewrite <- app_assoc. f_equal. rewrite (length_app bytes). lia.
Qed.

Lemma _xpread_reliable fd len off os f :
  fd <> 0 -> reliable os -> os_files os !! fd = Some f ->
  0 <= len -> 0 <= off -> off + len < gsize_modulus ->
  let got := take (Z.to_nat len) (drop (Z.to_nat off) f) in
  returns (_xpread fd len off) os (fun res os' =>
    res = (Z.of_nat (length got), got)
    /\ os_files os' = os_files os /\ os_frame fd os os').
Proof.
  intros Hfd Hrel Hf Hlen Hoff Hmax got. unfold _xpread.
  apply Z.eqb_neq in Hfd. rewrite Hfd, andb_false_r.
  apply returns_pending.
  apply (xpread_loop_reliable _ fd len off 0 [] os f); auto; lia.
Qed.

(** A store that is empty, or a descriptor that is not open, yields nothing,
    whatever the script. *)
Lemma xpread_loop_empty fuel : forall fd len off total buf os,
  os_files os !! fd = None \/ os_files os !! fd = Some [] ->
  (length (os_script os) < fuel)%nat ->
  returns (xpread_loop fuel fd len off total buf) os (fun res os' =>
    res = (total, buf) /\ os_files os' = os_files os /\ os_frame fd os os').
Proof.
  induction fuel as [|fuel IH]; intros fd len off total buf os Hf Hfuel; [lia|].
  cbn [xpread_loop].
  destruct (len =? 0).
  { apply returns_ret. split; [reflexivity|]. split; [reflexivity | apply os_frame_refl]. }
  apply returns_bind.
  destruct (os_call_cases os fd) as [(e & sc & Hs)|[[Hp Hn]|[Hp (f & Hs)]]].
  - eapply returns_eq; [apply (sys_pread_fail _ _ _ _ _ _ Hs)|].
    cbv beta iota. set (os1 := logged _ _ os).
    assert (Hfr : os_frame fd os os1) by apply logged_frame.
    destruct e; try (apply returns_ret; split; [reflexivity|];
                     split; [reflexivity | exact Hfr]).
    eapply returns_mono.
    + apply (IH fd len off total buf os1).
      * exact Hf.
      * assert (Hne : os_script os <> []) by congruence.
        pose proof (logged_script_length (SysPread fd len off) (RetErr EINTR) os Hne).
        unfold os1. lia.
    + cbv beta. intros res os' (Hres & Hfiles & H).
      split; [exact Hres|]. split; [rewrite Hfiles; reflexivity|].
      eapply os_frame_trans; eassumption.
  - eapply returns_eq; [apply (sys_pread_badf _ _ _ _ Hp Hn)|].
    apply returns_ret. split; [reflexivity|]. split; [reflexivity | apply logged_frame].
  - eapply returns_eq; [apply (sys_pread_ok _ _ _ _ _ Hp Hs)|].
    assert (f = []) as -> by (destruct Hf; congruence).
    rewrite drop_nil, take_nil. cbn [length]. cbv beta iota. cbn [Z.of_nat Z.eqb].
    apply returns_ret. split; [reflexivity|]. split; [reflexivity | apply logged_frame].
Qed.

Lemma _xpread_empty fd len off os :
  os_files os !! fd = None \/ os_files os !! fd = Some [] ->
  returns (_xpread fd len off) os (fun res os' =>
    res = (0, []) /\ os_files os' = os_files os /\ os_frame fd os os').
Proof.
  intros Hf. unfold _xpread.
  destruct (negb (len =? 0) && (fd =? 0)).
  - apply returns_ret. split; [reflexivity|]. split; [reflexivity | apply os_frame_refl].
  - apply returns_pending. apply xpread_loop_empty; [exact Hf | lia].
Qed.

(** The read loop always finishes: each iteration consumes a pending event
    or delivers at least one of the [len] bytes still wanted. *)
Lemma xpread_loop_frame fuel : forall fd len off total buf os,
  0 <= len < gsize_modulus ->
  (length (os_script os) + Z.to_nat len + 1 <= fuel)%nat ->
  returns (xpread_loop fuel fd len off total buf) os (fun _ os' =>
    os_files os' = os_files os /\ os_frame fd os os').
Proof.
  induction fuel as [|fuel IH]; intros fd len off total buf os Hlen Hfuel; [lia|].
  cbn [xpread_loop].
  destruct (Z.eqb_spec len 0) as [Hz|Hnz].
  { apply returns_ret. split; [reflexivity | apply os_frame_refl]. }
  apply returns_bind.
  destruct (os_call_cases os fd) as [(e & sc & Hs)|[[Hp Hn]|[Hp (f & Hs)]]].
  - eapply returns_eq; [apply (sys_pread_fail _ _ _ _ _ _ Hs)|].
    cbv beta iota. set (os1 := logged _ _ os).
    assert (Hfr : os_frame fd os os1) by apply logged_frame.
    destruct e; try (apply returns_ret; split; [reflexivity | exact Hfr]).
    eapply returns_mono.
    + apply (IH fd len off total buf os1 Hlen).
      assert (Hne : os_script os <> []) by congruence.
      pose proof (logged_script_length (SysPread fd len off) (RetErr EINTR) os Hne).
      unfold os1. lia.
    + cbv beta. intros res os' (Hfiles & H).
      split; [rewrite Hfiles; reflexivity | eapply os_frame_trans; eassumption].
  - eapply returns_eq; [apply (sys_pread_badf _ _ _ _ Hp Hn)|].
    apply returns_ret. split; [reflexivity | apply logged_frame].
  - eapply returns_eq; [apply (sys_pread_ok _ _ _ _ _ Hp Hs)|].
    cbv beta iota.
    set (bytes := take (Z.to_nat (moved os len)) (drop (Z.to_nat off) f)).
    set (os1 := logged _ _ os).
    assert (Hfr : os_frame fd os os1) by apply logged_frame.
    destruct (Z.eqb_spec (Z.of_nat (length bytes)) 0) as [Hr|Hr].
    { apply returns_ret. split; [reflexivity | exact Hfr]. }
    assert (Hb : (length bytes <= Z.to_nat len)%nat).
    { pose proof (moved_range os len). unfold bytes. rewrite length_take. lia. }
    rewrite (gsize_sub_small len) by lia.
    eapply returns_mono.
    + apply IH; [lia|].
      assert (Hl1 : (length (os_script os1) <= length (os_script os))%nat)
        by (eapply os_frame_script_length; exact Hfr).
      lia.
    + cbv beta. intros res os' (Hfiles & H).
      split; [rewrite Hfiles; reflexivity | eapply os_frame_trans; eassumption].
Qed.

Lemma _xpread_frame fd len off os :
  0 <= len < gsize_modulus ->
  returns (_xpread fd len off) os (fun _ os' =>
    os_files os' = os_files os /\ os_frame fd os os').
Proof.
  intros Hlen. unfold _xpread.
  destruct (negb (len =? 0) && (fd =? 0)).
  - apply returns_ret. split; [reflexivity | apply os_frame_refl].
  - apply returns_pending. apply xpread_loop_frame; [exact Hlen | lia].
Qed.

(** * The stream operations *)

(** ** Reads below the retained range, and reads of nothing *)

(** C5: a read at an offset below [offset[1]] returns FALSE at once, in
    every state and for every length; nothing is delivered, no system call is
    issued and the operating-system state is the one it started from (the
    stream record itself is not writable by a read). *)
Theorem read_below_previous_fails (stream : VteFileStream) (offset len : Z) (os : OS) :
  offset < offset1 stream ->
  _vte_file_stream_read stream offset len os = Done ((false, []), os).
Proof.
  intros H. unfold _vte_file_stream_read.
  apply Z.ltb_lt in H. rewrite H. reflexivity.
Qed.

Lemma read_below_previous_fails_witness :
  _vte_file_stream_read (mkStream 3 4 8 4 12) 0 4 os_boot = Done ((false, []), os_boot).
Proof. apply read_below_previous_fails. cbn. lia. Defined.

(** C9: a read of zero bytes returns TRUE at every offset that is not below
    [offset[1]], at or beyond [head] included; it delivers nothing and issues
    no system call. *)
Theorem read_zero_length_succeeds (stream : VteFileStream) (offset : Z) (os : OS) :
  offset1 stream <= offset ->
  _vte_file_stream_read stream offset 0 os = Done ((true, []), os).
Proof.
  intros H. unfold _vte_file_stream_read, read_current.
  apply Z.ltb_ge in H. rewrite H.
  destruct (offset <? offset0 stream); unfold mbind; rewrite _xpread_zero; reflexivity.
Qed.

Lemma read_zero_length_succeeds_witness :
  _vte_file_stream_read (mkStream 3 4 8 4 12) 100 0 os_boot = Done ((true, []), os_boot).
Proof. apply read_zero_length_succeeds. cbn. lia. Defined.

(** ** [_vte_mkstemp] and the lazily created store *)

Lemma fresh_fd_ge files : 3 <= fresh_fd files.
Proof.
  unfold fresh_fd. generalize ((map_to_list files).*1). intros l.
  induction l as [|k l IH]; cbn; lia.
Qed.

Lemma fresh_fd_above files fd f : files !! fd = Some f -> fd < fresh_fd files.
Proof.
  intros H. apply elem_of_map_to_list in H.
  assert (Hin : fd ∈ (map_to_list files).*1).
  { apply list_elem_of_fmap. exists (fd, f). split; [reflexivity | exact H]. }
  unfold fresh_fd. revert Hin. generalize ((map_to_list files).*1). intros l.
  induction l as [|k l IH]; intros Hin.
  - inversion Hin.
  - apply elem_of_cons in Hin as [->|Hin]; cbn; [lia|].
    specialize (IH Hin). lia.
Qed.

Lemma fresh_fd_fresh files : files !! fresh_fd files = None.
Proof.
  destruct (files !! fresh_fd files) as [f|] eqn:H; [|reflexivity].
  apply fresh_fd_above in H. lia.
Qed.

Lemma sys_mkstemp_fail os :
  mkstemp_fails os = true ->
  exists e, sys_mkstemp os = Done (-1, logged SysMkstemp (RetErr e) os).
Proof.
  unfold mkstemp_fails, sys_mkstemp. os_cases os. intros _. eauto.
Qed.

Lemma sys_mkstemp_ok os :
  mkstemp_fails os = false ->
  sys_mkstemp os = Done (fresh_fd (os_files os), created os).
Proof.
  unfold mkstemp_fails, sys_mkstemp, created. os_cases os; reflexivity.
Qed.

Lemma created_frame os : os_frame (fresh_fd (os_files os)) os (created os).
Proof.
  split; cbn.
  - destruct (os_script os); cbn; [reflexivity | apply suffix_cons_r; reflexivity].
  - intros fd' Hne. apply lookup_insert_ne. auto.
  - intros fd' H. destruct (decide (fresh_fd (os_files os) = fd')) as [<-|Hne].
    + rewrite lookup_insert_eq. eauto.
    + rewrite lookup_insert_ne; auto.
  - apply prefix_app_r. reflexivity.
Qed.

Lemma ensure_fd0_spec stream os :
  returns (_vte_file_stream_ensure_fd0 stream) os (fun stream' os' =>
    fd1 stream' = fd1 stream /\ offset0 stream' = offset0 stream
    /\ offset1 stream' = offset1 stream /\ head stream' = head stream
    /\ os_frame (fd0 stream') os os'
    /\ (fd0 stream' = 0 <-> fd0 stream = 0 /\ mkstemp_fails os = true)
    /\ (fd0 stream <> 0 -> stream' = stream /\ os' = os)
    /\ (fd0 stream = 0 -> mkstemp_fails os = false ->
         fd0 stream' = fresh_fd (os_files os) /\ os' = created os)).
Proof.
  unfold _vte_file_stream_ensure_fd0.
  destruct (Z.eqb_spec (fd0 stream) 0) as [Hz|Hnz]; cbn [negb].
  - apply returns_bind. destruct (mkstemp_fails os) eqn:Hm.
    + destruct (sys_mkstemp_fail os Hm) as [e He].
      eapply returns_eq; [exact He|]. cbn [Z.eqb Pos.eqb]. apply returns_ret.
      splits; auto; try tauto; try discriminate.
      apply logged_frame.
    + eapply returns_eq; [apply (sys_mkstemp_ok os Hm)|].
      pose proof (fresh_fd_ge (os_files os)) as Hge.
      destruct (Z.eqb_spec (fresh_fd (os_files os)) (-1)) as [|_]; [lia|].
      apply returns_ret. cbn [fd0 fd1 offset0 offset1 head].
      splits; auto; try tauto; try lia; try discriminate.
      apply created_frame.
  - apply returns_ret. splits; auto; try tauto. apply os_frame_refl.
Qed.

(** ** Append *)

(** What an append does to [head], case by case.  When the stream has a
    current store, or [_vte_mkstemp] provides one, or [len] is zero, the
    append returns, whatever the script does to the write (errors and short
    writes included), and [head] has advanced by [len] modulo the [gsize]
    range, the generation offsets being unchanged.  In the remaining case
    (no current store, a failing [_vte_mkstemp], [len] not zero)
    [_vte_file_stream_ensure_fd0] returns without a word and [_xpwrite] is
    called with descriptor 0: its assertion [fd || !len] fails before
    [head] is advanced. *)
Theorem append_advances_head (stream : VteFileStream) (data : list byte) (len : Z) (os : OS) :
  len = Z.of_nat (length data) -> len < gsize_modulus ->
  if (fd0 stream =? 0) && mkstemp_fails os && negb (len =? 0)
  then _vte_file_stream_append stream data len os = Aborted
  else exists stream' os',
    _vte_file_stream_append stream data len os = Done (stream', os')
    /\ head stream' = gsize_add (head stream) len
    /\ offset0 stream' = offset0 stream /\ offset1 stream' = offset1 stream
    /\ fd1 stream' = fd1 stream.
Proof.
  intros Hlen Hmax. unfold _vte_file_stream_append.
  pose proof (ensure_fd0_spec stream os) as He.
  apply returns_Done in He as (s1 & os1 & Hs1 & H1 & H2 & H3 & H4 & Hfr & Hz & Hsame & Hnew).
  destruct ((fd0 stream =? 0) && mkstemp_fails os && negb (len =? 0)) eqn:Hc.
  - apply andb_prop in Hc as [Hc Hl]. apply andb_prop in Hc as [Hc Hm].
    apply Z.eqb_eq in Hc. apply negb_true_iff, Z.eqb_neq in Hl.
    unfold mbind at 1. rewrite Hs1.
    assert (Hfd : fd0 s1 = 0) by tauto.
    unfold mbind. rewrite Hfd, _xpwrite_assert by exact Hl. reflexivity.
  - assert (Hfd : fd0 s1 <> 0 \/ len = 0).
    { destruct (Z.eqb_spec len 0) as [|Hl]; [right; assumption | left].
      intros Hfd. apply Hz in Hfd as [Ha Hb].
      apply Z.eqb_eq in Ha. rewrite Ha, Hb in Hc. discriminate. }
    pose proof (_xpwrite_frame (fd0 s1) data len (gsize_sub (head s1) (offset0 s1)) os1
                  Hlen Hmax Hfd) as Hw.
    apply returns_Done in Hw as ([] & os2 & Hw & _).
    eexists _, os2. unfold mbind. rewrite Hs1, Hw. cbn [fd0 fd1 offset0 offset1 head].
    rewrite H4. auto.
Qed.

Lemma append_advances_head_witness :
  exists stream' os',
    _vte_file_stream_append (mkStream 3 0 0 0 0) [x41; x42] 2
      (mkOS {[3 := []]} ∅ [Fail ENOSPC] []) = Done (stream', os')
    /\ head stream' = gsize_add 0 2
    /\ offset0 stream' = 0 /\ offset1 stream' = 0 /\ fd1 stream' = 0.
Proof.
  apply (append_advances_head (mkStream 3 0 0 0 0) [x41; x42] 2
           (mkOS {[3 := []]} ∅ [Fail ENOSPC] [])); [reflexivity | reflexivity].
Defined.

(** C10, at the input where the code departs from it: on a new stream (no
    current store) with [_vte_mkstemp] failing, appending one byte does not
    advance [head] by one.  [_vte_file_stream_ensure_fd0] tolerates the
    failure and leaves [fd[0]] at 0, and [_xpwrite], unlike [_xtruncate],
    [_xpread] and [_xwrite_contents], which return on an absent descriptor,
    stops at its assertion [fd || !len] before [stream->head += len] is
    reached. *)
Lemma append_without_store_aborts :
  _vte_file_stream_append _vte_file_stream_new [x41] 1
    (with_script [Fail ENOSPC] os_boot) = Aborted
  /\ ~ append_always_advances _vte_file_stream_new [x41] (with_script [Fail ENOSPC] os_boot).
Proof.
  split; [reflexivity|].
  intros (s & os' & H & _). vm_compute in H. discriminate.
Qed.

(** A failed write loses the bytes but not the advance of [head]. *)
Example append_head_exceeds_stored :
  exists os',
    _vte_file_stream_append (mkStream 3 0 0 0 0) [x41; x42] 2
      (mkOS {[3 := []]} ∅ [Fail ENOSPC] []) = Done (mkStream 3 0 0 0 2, os')
    /\ os_files os' !! 3 = Some [].
Proof. eexists. split; reflexivity. Qed.

(** ** Rotation *)

Lemma _xtruncate_reliable fd n os :
  fd <> 0 -> proceeds os ->
  returns (_xtruncate fd n) os (fun _ os' =>
    os_frame fd os os'
    /\ ((os_files os !! fd = None /\ os_files os' = os_files os)
        \/ (exists f, os_files os !! fd = Some f
                      /\ os_files os' = <[fd := resize (Z.to_nat n) x00 f]> (os_files os)))).
Proof.
  intros Hfd Hp. apply returns_and; [apply _xtruncate_frame|].
  destruct (os_files os !! fd) as [f|] eqn:Hf.
  - eapply returns_eq; [apply (_xtruncate_ok _ _ _ _ Hfd Hp Hf)|]. right. eauto.
  - destruct (_xtruncate_badf fd n os Hp Hf) as [H|H];
      (eapply returns_eq; [exact H|]); left; auto.
Qed.

(** C4: [new_page] returns in every state; it moves [offset[0]] to
    [offset[1]] and [head] to [offset[0]], exchanges the two descriptors and
    leaves [head] alone.  The file of the new previous generation is
    untouched (the two descriptors being distinct, or the repurposed one
    absent), and the store repurposed as the new current one is emptied
    when the truncation is not made to fail. *)
Theorem new_page_rotates (stream : VteFileStream) (os : OS) :
  exists os',
    _vte_file_stream_new_page stream os
    = Done (mkStream (fd1 stream) (fd0 stream) (head stream) (offset0 stream) (head stream), os')
    /\ (fd1 stream = 0 \/ fd0 stream <> fd1 stream ->
        os_files os' !! fd0 stream = os_files os !! fd0 stream)
    /\ (proceeds os -> fd1 stream <> 0 -> is_Some (os_files os !! fd1 stream) ->
        os_files os' !! fd1 stream = Some []).
Proof.
  unfold _vte_file_stream_new_page, _vte_file_stream_swap_fds.
  cbn [fd0 fd1 offset0 offset1 head].
  pose proof (_xtruncate_frame (fd1 stream) 0 os) as Hfr.
  apply returns_Done in Hfr as ([] & os' & Ht & Hfr).
  exists os'. unfold mbind. rewrite Ht. split; [reflexivity|]. split.
  - intros [Hz|Hne].
    + rewrite Hz, _xtruncate_absent in Ht. congruence.
    + apply (fr_files _ _ _ Hfr). exact Hne.
  - intros Hp Hfd [f Hf].
    rewrite (_xtruncate_ok _ _ _ _ Hfd Hp Hf) in Ht.
    injection Ht as <-. cbn. rewrite lookup_insert_eq, resize_0. reflexivity.
Qed.

Lemma new_page_rotates_witness :
  exists os',
    _vte_file_stream_new_page (mkStream 3 4 4 0 8) (mkOS {[3 := [x42]; 4 := [x41]]} ∅ [] [])
    = Done (mkStream 4 3 8 4 8, os')
    /\ os_files os' !! 3 = Some [x42]
    /\ os_files os' !! 4 = Some [].
Proof.
  destruct (new_page_rotates (mkStream 3 4 4 0 8) (mkOS {[3 := [x42]; 4 := [x41]]} ∅ [] []))
    as (os' & H & Hprev & Hcur).
  exists os'. split; [exact H|]. split.
  - refine (Hprev (or_intror _)). cbn. lia.
  - refine (Hcur I _ _); [cbn; lia | cbn; eauto].
Defined.

(** ** Reset *)

Lemma reset_spec stream k os :
  reliable os ->
  returns (_vte_file_stream_reset stream k) os (fun stream' os' =>
    stream' = mkStream (fd0 stream) (fd1 stream) k k k
    /\ reliable os'
    /\ (forall fd, fd = fd0 stream \/ fd = fd1 stream -> fd <> 0 ->
         (os_files os !! fd = None /\ os_files os' !! fd = None)
         \/ (is_Some (os_files os !! fd) /\ os_files os' !! fd = Some []))
    /\ (forall fd, fd <> fd0 stream -> fd <> fd1 stream ->
         os_files os' !! fd = os_files os !! fd)).
Proof.
  intros Hrel. unfold _vte_file_stream_reset.
  assert (Hcut : forall fd os0, reliable os0 ->
    returns (if negb (fd =? 0) then _xtruncate fd 0 else mret tt) os0 (fun _ os1 =>
      reliable os1
      /\ (forall fd', fd' <> fd -> os_files os1 !! fd' = os_files os0 !! fd')
      /\ (fd <> 0 -> (os_files os0 !! fd = None /\ os_files os1 !! fd = None)
                     \/ (is_Some (os_files os0 !! fd) /\ os_files os1 !! fd = Some [])))).
  { intros fd os0 Hr. destruct (Z.eqb_spec fd 0) as [Hz|Hnz]; cbn [negb].
    - apply returns_ret. splits; auto. contradiction.
    - eapply returns_mono; [apply (_xtruncate_reliable fd 0 os0 Hnz (reliable_proceeds _ Hr))|].
      cbv beta. intros [] os1 [Hfr Hcase]. splits.
      + eapply reliable_frame; eassumption.
      + apply (fr_files _ _ _ Hfr).
      + intros _. destruct Hcase as [[Hn He]|(f & Hf & He)]; rewrite He.
        * left. auto.
        * right. split; [rewrite Hf; eauto|].
          change (Z.to_nat 0) with 0%nat. rewrite lookup_insert_eq, resize_0. reflexivity. }
  apply returns_bind.
  eapply returns_mono; [apply (Hcut (fd0 stream) os Hrel)|].
  cbv beta. intros [] os1 (Hr1 & Hoth1 & Hcur1).
  apply returns_bind.
  eapply returns_mono; [apply (Hcut (fd1 stream) os1 Hr1)|].
  cbv beta. intros [] os2 (Hr2 & Hoth2 & Hcur2).
  apply returns_ret. splits; auto.
  - intros fd Hfd Hnz.
    destruct (decide (fd = fd1 stream)) as [->|Hne1].
    + specialize (Hcur2 Hnz).
      destruct (decide (fd1 stream = fd0 stream)) as [Heq|Hne0].
      * rewrite Heq in *. specialize (Hcur1 Hnz).
        destruct Hcur1 as [[Ha Hb]|[Ha Hb]]; destruct Hcur2 as [[Hc Hd]|[Hc Hd]]; auto;
          exfalso; rewrite Hb in Hc; [destruct Hc|]; discriminate.
      * rewrite (Hoth1 _ Hne0) in Hcur2. exact Hcur2.
    + destruct Hfd as [-> | ->]; [|contradiction].
      rewrite (Hoth2 _ Hne1). apply Hcur1, Hnz.
  - intros fd H0 H1. rewrite (Hoth2 _ H1). apply Hoth1, H0.
Qed.




(** It is not only an append that ends the failing of reads: after
    [reset (5)] on a stream that has a store, [truncate (9)] extends the
    empty store with zeros, and the four bytes at offset 5 are read back. *)
Example reset_then_truncate_forward_reads_zeros :
  exists stream1 os1 stream2 os2 os3,
    _vte_file_stream_reset (mkStream 3 0 0 0 2) 5 (mkOS {[3 := [x41; x42]]} ∅ [] [])
    = Done (stream1, os1)
    /\ _vte_file_stream_truncate stream1 9 os1 = Done (stream2, os2)
    /\ _vte_file_stream_read stream2 5 4 os2 = Done ((true, [x00; x00; x00; x00]), os3).
Proof.
  do 5 eexists. split; [vm_compute; reflexivity|].
  split; [vm_compute; reflexivity|]. vm_compute. reflexivity.
Qed.

(** ** Truncation inside the current generation *)

(** C6, with the condition the code needs: when [offset] is not below
    [offset[1]] (as in every state with [offset[1] <= offset[0]]), with the
    two descriptors distinct (or the current one absent) and on a reliable
    system, [truncate (offset)] with [offset[0] <= offset <= head] returns;
    it changes [head] to [offset] and nothing else in the record; only the
    file of the current store changes, and it is cut to
    [offset - offset[0]] bytes; the file of the previous generation is
    the same, and every range of it that it physically holds is still
    read back, unchanged, through the stream. *)
Theorem truncate_within_current (stream : VteFileStream) (offset : Z) (os : OS) :
  0 <= offset1 stream <= offset ->
  0 <= offset0 stream <= offset -> offset <= head stream < gsize_modulus ->
  fd0 stream = 0 \/ fd0 stream <> fd1 stream ->
  reliable os ->
  exists os',
    _vte_file_stream_truncate stream offset os
    = Done (mkStream (fd0 stream) (fd1 stream) (offset0 stream) (offset1 stream) offset, os')
    /\ (forall fd, fd <> fd0 stream -> os_files os' !! fd = os_files os !! fd)
    /\ (forall f, fd0 stream <> 0 -> os_files os !! fd0 stream = Some f ->
          os_files os' !! fd0 stream
          = Some (resize (Z.to_nat (offset - offset0 stream)) x00 f))
    /\ os_files os' !! fd1 stream = os_files os !! fd1 stream
    /\ (forall f1 off len,
          fd1 stream <> 0 -> os_files os !! fd1 stream = Some f1 ->
          offset1 stream <= off -> 0 <= len -> off + len <= offset0 stream ->
          off - offset1 stream + len <= Z.of_nat (length f1) ->
          exists os'',
            _vte_file_stream_read
              (mkStream (fd0 stream) (fd1 stream) (offset0 stream) (offset1 stream) offset)
              off len os'
            = Done ((true, take (Z.to_nat len) (drop (Z.to_nat (off - offset1 stream)) f1)),
                    os'')).
Proof.
  intros Hinv Hoff Hhead Hfd Hrel.
  unfold _vte_file_stream_truncate.
  assert (H1 : (offset <? offset1 stream) = false) by (apply Z.ltb_ge; lia).
  assert (H0 : (offset <? offset0 stream) = false) by (apply Z.ltb_ge; lia).
  rewrite H1. unfold mbind at 1, mret at 1. rewrite H0.
  rewrite gsize_sub_small by lia.
  set (n := offset - offset0 stream).
  assert (Hcut : exists os',
    _xtruncate (fd0 stream) n os = Done (tt, os')
    /\ os_frame (fd0 stream) os os'
    /\ (forall f, fd0 stream <> 0 -> os_files os !! fd0 stream = Some f ->
          os_files os' !! fd0 stream = Some (resize (Z.to_nat n) x00 f))
    /\ (fd0 stream = 0 -> os' = os)).
  { destruct (Z.eq_dec (fd0 stream) 0) as [Hz|Hnz].
    - exists os. rewrite Hz. split; [reflexivity|]. split; [apply os_frame_refl|].
      split; [intros; contradiction | reflexivity].
    - pose proof (_xtruncate_reliable (fd0 stream) n os Hnz (reliable_proceeds _ Hrel)) as H.
      apply returns_Done in H as ([] & os' & Ht & Hfr & Hcase).
      exists os'. splits; auto; [|contradiction].
      intros f _ Hf. destruct Hcase as [[Hn _]|(f' & Hf' & He)]; [congruence|].
      rewrite He, lookup_insert_eq. congruence. }
  destruct Hcut as (os' & Ht & Hfr & Hcur & Habs).
  exists os'. unfold mbind, mret. rewrite Ht. cbn [fd0 fd1 offset0 offset1 head].
  assert (Hprev : os_files os' !! fd1 stream = os_files os !! fd1 stream).
  { destruct Hfd as [Hz|Hne]; [rewrite (Habs Hz); reflexivity|].
    apply (fr_files _ _ _ Hfr). auto. }
  splits; auto.
  - apply (fr_files _ _ _ Hfr).
  - intros f1 off len Hfd1 Hf1 Ho Hl Hend Hphys.
    unfold _vte_file_stream_read, read_current. cbn [fd0 fd1 offset0 offset1 head].
    assert (Hlt1 : (off <? offset1 stream) = false) by (apply Z.ltb_ge; lia).
    rewrite Hlt1.
    destruct (Z.ltb_spec off (offset0 stream)) as [Hlt0|Hge0].
    + pose proof (_xpread_reliable (fd1 stream) len (gsize_sub off (offset1 stream)) os' f1
                    Hfd1 (reliable_frame _ _ _ Hfr Hrel)) as Hr.
      rewrite Hprev in Hr. specialize (Hr Hf1 Hl).
      rewrite gsize_sub_small in Hr by lia.
      specialize (Hr ltac:(lia) ltac:(lia)). cbv zeta in Hr.
      apply returns_Done in Hr as (res & os'' & Hread & -> & _).
      exists os''. unfold mbind. rewrite gsize_sub_small by lia. rewrite Hread.
      rewrite length_take, length_drop.
      replace (Z.of_nat (Z.to_nat len `min` (length f1 - Z.to_nat (off - offset1 stream))))
        with len by lia.
      rewrite gsize_sub_diag. reflexivity.
    + assert (len = 0) as -> by lia.
      exists os'. unfold mbind. rewrite _xpread_zero. reflexivity.
Qed.

Lemma truncate_within_current_witness :
  exists os',
    _vte_file_stream_truncate (mkStream 3 4 8 4 12) 10
      (mkOS {[3 := [x43; x43; x43; x43]; 4 := [x42; x42; x42; x42]]} ∅ [] [])
    = Done (mkStream 3 4 8 4 10, os')
    /\ os_files os' !! 3 = Some [x43; x43]
    /\ os_files os' !! 4 = Some [x42; x42; x42; x42]
    /\ exists os'',
         _vte_file_stream_read (mkStream 3 4 8 4 10) 4 4 os'
         = Done ((true, [x42; x42; x42; x42]), os'').
Proof.
  destruct (truncate_within_current (mkStream 3 4 8 4 12) 10
              (mkOS {[3 := [x43; x43; x43; x43]; 4 := [x42; x42; x42; x42]]} ∅ [] []))
    as (os' & Ht & _ & Hcur & Hprev & Hread).
  - cbn. lia.
  - cbn. lia.
  - split; [cbn; lia | reflexivity].
  - right. cbn. lia.
  - constructor.
  - exists os'. split; [exact Ht|]. split; [|split; [exact Hprev|]].
    + refine (Hcur [x43; x43; x43; x43] _ _); [cbn; lia | reflexivity].
    + refine (Hread [x42; x42; x42; x42] 4 4 _ _ _ _ _ _);
        [cbn; lia | reflexivity | cbn; lia | lia | cbn; lia | cbn; lia].
Defined.

(** C6 as stated fails: [reset (2^64 - 1)], an append of two bytes (which
    wraps [head] around to 1), a rotation and a second append of two bytes
    lead to [offset[1] = 2^64 - 1], [offset[0] = 1], [head = 3].  There
    [truncate (2)], an offset of the current generation, is below
    [offset[1]]: the first test of the function empties the previous store
    and moves [offset[1]] to 2. *)
Lemma truncate_within_current_fails_after_wrap :
  exists stream os,
    reachable any_op stream os
    /\ stream = mkStream 4 3 1 (gsize_modulus - 1) 3
    /\ reliable os
    /\ os_files os !! 3 = Some [x41; x42]
    /\ (exists os', _vte_file_stream_truncate stream 2 os = Done (mkStream 4 3 1 2 2, os')
                    /\ os_files os' !! 3 = Some [])
    /\ ~ truncate_keeps_previous stream 2 os.
Proof.
  exists (mkStream 4 3 1 (gsize_modulus - 1) 3). eexists. split.
  - eapply (reach_step _ _ _ (OpAppend [x41; x42])).
    + eapply (reach_step _ _ _ OpNewPage).
      * eapply (reach_step _ _ _ (OpAppend [x41; x42])).
        -- eapply (reach_step _ _ _ (OpReset (gsize_modulus - 1))).
           ++ apply (reach_new _ os_boot).
           ++ split; [discriminate | reflexivity].
           ++ exact I.
           ++ vm_compute. reflexivity.
        -- split; [cbn; lia | reflexivity].
        -- exact I.
        -- vm_compute. reflexivity.
      * exact I.
      * exact I.
      * vm_compute. reflexivity.
    + split; [cbn; lia | reflexivity].
    + exact I.
    + vm_compute. reflexivity.
  - split; [reflexivity|]. split; [constructor|]. split; [reflexivity|]. split.
    + eexists. split; [vm_compute; reflexivity|]. vm_compute. reflexivity.
    + intros H. destruct H as (os' & Hrun & _); [cbn; lia|].
      vm_compute in Hrun. discriminate.
Qed.

(** ** Appends read back *)

Lemma append_appended base acc stream os data :
  appended base acc stream os ->
  Z.of_nat (length acc) + Z.of_nat (length data) < gsize_modulus ->
  returns (_vte_file_stream_append stream data (Z.of_nat (length data))) os
          (appended base (acc ++ data)).
Proof.
  intros (H0 & H1 & Hh & Hrel & Hst) Hmax.
  unfold _vte_file_stream_append. apply returns_bind.
  eapply returns_mono; [apply ensure_fd0_spec|]. cbv beta.
  intros s1 os1 (E1 & E2 & E3 & E4 & Hfr & Hz & Hsame & Hnew).
  assert (Hm : mkstemp_fails os = false).
  { apply reliable_proceeds in Hrel. unfold proceeds in Hrel. unfold mkstemp_fails.
    destruct (os_script os) as [|[|e|k] sc]; tauto. }
  assert (Hfd : fd0 s1 <> 0).
  { intros Hfd. apply Hz in Hfd as [_ Hfd]. congruence. }
  assert (Hfile : os_files os1 !! fd0 s1 = Some acc).
  { destruct Hst as [[Hz0 ->]|[Hnz Hf]].
    - destruct (Hnew Hz0 Hm) as [-> ->]. cbn. apply lookup_insert_eq.
    - destruct (Hsame Hnz) as [-> ->]. exact Hf. }
  assert (Hrel1 : reliable os1) by (eapply reliable_frame; eassumption).
  assert (Hpos : gsize_sub (head s1) (offset0 s1) = Z.of_nat (length acc)).
  { rewrite E4, E2, Hh, H0. apply gsize_sub_add_wrap. unfold is_gsize. lia. }
  apply returns_bind. rewrite Hpos.
  eapply returns_mono.
  - apply (_xpwrite_reliable (fd0 s1) data _ _ os1 acc Hfd Hrel1 Hfile eq_refl); lia.
  - cbv beta. intros [] os2 [Hfiles Hfr2]. apply returns_ret.
    unfold appended. cbn [fd0 fd1 offset0 offset1 head].
    splits; try congruence.
    + rewrite E4, Hh, length_app, Nat2Z.inj_add.
      unfold gsize_add, gsize_wrap. rewrite Zplus_mod_idemp_l. f_equal. lia.
    + eapply reliable_frame; eassumption.
    + right. split; [exact Hfd|]. rewrite Hfiles, lookup_insert_eq, file_write_end.
      reflexivity.
Qed.

Lemma append_all_appended ds : forall base acc stream os,
  appended base acc stream os ->
  Z.of_nat (length acc) + total_length ds < gsize_modulus ->
  returns (append_all stream ds) os (appended base (acc ++ concat ds)).
Proof.
  unfold total_length.
  induction ds as [|d ds IH]; intros base acc stream os Happ Hmax; cbn [append_all concat].
  - apply returns_ret. rewrite app_nil_r. exact Happ.
  - cbn [concat] in Hmax. rewrite length_app in Hmax.
    apply returns_bind. eapply returns_mono.
    + apply (append_appended base acc stream os d Happ). lia.
    + cbv beta. intros s1 os1 H1. rewrite app_assoc. apply IH; [exact H1|].
      rewrite length_app. lia.
Qed.

(** C1: reset a stream whose current descriptor, if any, is open, on a
    reliable system, then append [d1 ... dn] (their total length being a
    [gsize]) with nothing in between: each call returns, and reading the
    total length at [base] returns TRUE and delivers the concatenation. *)
Theorem append_then_read_back (stream : VteFileStream) (base : Z) (ds : list (list byte))
                              (os : OS) :
  is_gsize base -> total_length ds < gsize_modulus ->
  fd0 stream = 0 \/ is_Some (os_files os !! fd0 stream) ->
  reliable os ->
  exists stream0 os0 stream' os' os'',
    _vte_file_stream_reset stream base os = Done (stream0, os0)
    /\ append_all stream0 ds os0 = Done (stream', os')
    /\ _vte_file_stream_read stream' base (total_length ds) os'
       = Done ((true, concat ds), os'').
Proof.
  intros Hbase Hmax Hopen Hrel.
  pose proof (reset_spec stream base os Hrel) as Hreset.
  apply returns_Done in Hreset as (s0 & os0 & Hreset & -> & Hrel0 & Hcur & _).
  set (s0 := mkStream (fd0 stream) (fd1 stream) base base base) in *.
  assert (Happ0 : appended base [] s0 os0).
  { unfold appended, s0. cbn [fd0 fd1 offset0 offset1 head length].
    splits; auto.
    - unfold gsize_add. change (Z.of_nat 0) with 0. rewrite Z.add_0_r. symmetry.
      apply gsize_wrap_small, Hbase.
    - destruct (Z.eq_dec (fd0 stream) 0) as [Hz|Hnz]; [left; auto | right].
      split; [exact Hnz|].
      destruct Hopen as [|Hopen]; [contradiction|].
      destruct (Hcur (fd0 stream)) as [[Hn _]|[_ H]]; auto.
      rewrite Hn in Hopen. destruct Hopen; discriminate. }
  pose proof (append_all_appended ds base [] s0 os0 Happ0) as Hall.
  cbn [length app] in Hall. specialize (Hall ltac:(lia)).
  apply returns_Done in Hall as (s' & os' & Hall & H0 & H1 & Hh & Hrel' & Hst).
  assert (Hread : exists os'',
    _xpread (fd0 s') (total_length ds) 0 os' = Done ((total_length ds, concat ds), os'')).
  { unfold total_length in *. destruct Hst as [[Hz Hnil]|[Hnz Hf]].
    - rewrite Hz, Hnil. cbn. rewrite _xpread_absent. eauto.
    - pose proof (_xpread_reliable (fd0 s') (Z.of_nat (length (concat ds))) 0 os' (concat ds)
                    Hnz Hrel' Hf ltac:(lia) ltac:(lia) ltac:(lia)) as Hr.
      cbv zeta in Hr. change (Z.to_nat 0) with 0%nat in Hr. rewrite drop_0 in Hr.
      rewrite Nat2Z.id, firstn_all in Hr.
      apply returns_Done in Hr as (res & os'' & Hr & -> & _). eauto. }
  destruct Hread as (os'' & Hread).
  exists s0, os0, s', os', os''. splits; auto.
  unfold _vte_file_stream_read, read_current.
  rewrite H0, H1, Z.ltb_irrefl, gsize_sub_diag.
  unfold mbind. rewrite Hread, gsize_sub_diag. reflexivity.
Qed.

Lemma append_then_read_back_witness :
  exists stream0 os0 stream' os' os'',
    _vte_file_stream_reset _vte_file_stream_new 7 os_boot = Done (stream0, os0)
    /\ append_all stream0 [[x41; x42]; []; [x43]] os0 = Done (stream', os')
    /\ _vte_file_stream_read stream' 7 3 os' = Done ((true, [x41; x42; x43]), os'').
Proof.
  apply (append_then_read_back _vte_file_stream_new 7 [[x41; x42]; []; [x43]] os_boot).
  - split; [lia | reflexivity].
  - reflexivity.
  - left. reflexivity.
  - constructor.
Defined.

(** ** The two-rotation trace *)

(** C3 as stated fails: after the trace [offset[1]] is 4, not 8, and the
    read of 4 bytes at offset 4 succeeds. *)
Lemma rotation_trace_claim_fails : ~ rotation_trace_claim.
Proof.
  intros (stream & os & Htrace & Hoff & _).
  vm_compute in Htrace. injection Htrace as <- _.
  discriminate Hoff.
Qed.

(** C3, as the code has it: after the trace [offset[1]] is 4 and
    [offset[0]] is 8 with [head] at 12; it is "AAAA" (offsets 0 to 3) that
    the second rotation has evicted, so the read of 4 bytes at offset 0
    fails, the one at offset 4 delivers "BBBB" from the previous generation
    and the one at offset 8 delivers "CCCC". *)
Theorem rotation_trace_retains_two_generations :
  exists stream os,
    rotation_trace os_boot = Done (stream, os)
    /\ offset1 stream = 4 /\ offset0 stream = 8 /\ head stream = 12
    /\ _vte_file_stream_read stream 0 4 os = Done ((false, []), os)
    /\ (exists os', _vte_file_stream_read stream 4 4 os = Done ((true, BBBB), os'))
    /\ (exists os', _vte_file_stream_read stream 8 4 os = Done ((true, CCCC), os')).
Proof.
  eexists _, _. split; [vm_compute; reflexivity|].
  split; [reflexivity|]. split; [reflexivity|]. split; [reflexivity|].
  split; [reflexivity|].
  split; eexists; vm_compute; reflexivity.
Qed.

(** ** The offset invariant *)

Lemma reset_fields stream k os stream' os' :
  _vte_file_stream_reset stream k os = Done (stream', os') ->
  stream' = mkStream (fd0 stream) (fd1 stream) k k k.
Proof.
  unfold _vte_file_stream_reset. intros H.
  apply mbind_Done in H as (? & ? & _ & H).
  apply mbind_Done in H as (? & ? & _ & H).
  injection H as <- _. reflexivity.
Qed.

Lemma append_fields stream data len os stream' os' :
  _vte_file_stream_append stream data len os = Done (stream', os') ->
  offset0 stream' = offset0 stream /\ offset1 stream' = offset1 stream
  /\ head stream' = gsize_add (head stream) len.
Proof.
  unfold _vte_file_stream_append. intros H.
  apply mbind_Done in H as (s1 & os1 & He & H).
  apply mbind_Done in H as (? & ? & _ & H).
  injection H as <- _. cbn.
  pose proof (ensure_fd0_spec stream os) as Hs.
  unfold returns in Hs. rewrite He in Hs.
  destruct Hs as (_ & -> & -> & -> & _). auto.
Qed.

Lemma truncate_fields stream offset os stream' os' :
  _vte_file_stream_truncate stream offset os = Done (stream', os') ->
  let o1 := if offset <? offset1 stream then offset else offset1 stream in
  offset1 stream' = o1
  /\ offset0 stream' = (if offset <? offset0 stream then o1 else offset0 stream)
  /\ head stream' = offset.
Proof.
  unfold _vte_file_stream_truncate. intros H.
  apply mbind_Done in H as (s1 & os1 & H1 & H).
  apply mbind_Done in H as (s2 & os2 & H2 & H).
  injection H as <- _. cbn [offset0 offset1 head].
  assert (E1 : offset0 s1 = offset0 stream
               /\ offset1 s1 = (if offset <? offset1 stream then offset else offset1 stream)).
  { destruct (offset <? offset1 stream).
    - apply mbind_Done in H1 as (? & ? & _ & H1). injection H1 as <- _. auto.
    - injection H1 as <- _. auto. }
  destruct E1 as [E0 E1]. rewrite E0 in H2.
  destruct (offset <? offset0 stream);
    apply mbind_Done in H2 as (? & ? & _ & H2); injection H2 as <- _; cbn; auto.
Qed.

Lemma new_page_fields stream os stream' os' :
  _vte_file_stream_new_page stream os = Done (stream', os') ->
  stream' = mkStream (fd1 stream) (fd0 stream) (head stream) (offset0 stream) (head stream).
Proof.
  unfold _vte_file_stream_new_page. intros H.
  apply mbind_Done in H as (? & ? & _ & H). injection H as <- _. reflexivity.
Qed.

Lemma run_op_unchanged (m : M (bool * list byte)) (stream stream' : VteFileStream)
                        (os os' : OS) :
  (m ;; mret stream) os = Done (stream', os') -> stream' = stream.
Proof.
  intros H. apply mbind_Done in H as (? & ? & _ & H). injection H as <- _. reflexivity.
Qed.

(** The offsets of a stream whose [head] never wrapped are ordered and
    within the [gsize] range. *)
Lemma stream_bounds_reachable (stream : VteFileStream) (os : OS) :
  reachable no_wrap stream os ->
  0 <= offset1 stream /\ offset1 stream <= offset0 stream
  /\ offset0 stream <= head stream /\ head stream < gsize_modulus.
Proof.
  intros H.
  induction H as [os|stream os sc _ IH|stream os o stream' os' _ IH Hty Hok Hrun].
  - cbn. splits; try lia. reflexivity.
  - exact IH.
  - destruct o as [k|data|offset len|offset| | |output offset]; cbn in Hrun, Hty, Hok.
    + apply reset_fields in Hrun as ->. unfold is_gsize in Hty. cbn. lia.
    + apply append_fields in Hrun as (-> & -> & ->).
      rewrite gsize_add_small by lia. lia.
    + apply run_op_unchanged in Hrun as ->. exact IH.
    + apply truncate_fields in Hrun as (-> & -> & ->). unfold is_gsize in Hty.
      destruct (Z.ltb_spec offset (offset1 stream));
        destruct (Z.ltb_spec offset (offset0 stream)); lia.
    + apply new_page_fields in Hrun as ->. cbn. lia.
    + injection Hrun as <- _. exact IH.
    + apply run_op_unchanged in Hrun as ->. exact IH.
Qed.

(** C2, as the code has it: as long as no append carries [head] past the
    top of the [gsize] range, every state reached from a new stream by
    reset, append, read, truncate, new_page, head and write_contents has
    [offset[1] <= offset[0] <= head]. *)
Theorem stream_inv_reachable (stream : VteFileStream) (os : OS) :
  reachable no_wrap stream os -> stream_inv stream.
Proof.
  intros H. apply stream_bounds_reachable in H. unfold stream_inv. tauto.
Qed.

Lemma stream_inv_reachable_witness :
  exists os, reachable no_wrap (mkStream 3 0 5 5 7) os /\ stream_inv (mkStream 3 0 5 5 7).
Proof.
  assert (H : exists os, reachable no_wrap (mkStream 3 0 5 5 7) os).
  { eexists. eapply (reach_step _ _ _ (OpAppend [x41; x42])).
    - eapply (reach_step _ _ _ (OpReset 5)).
      + apply (reach_new _ os_boot).
      + split; [lia | reflexivity].
      + exact I.
      + vm_compute. reflexivity.
    - split; [cbn; lia | reflexivity].
    - reflexivity.
    - vm_compute. reflexivity. }
  destruct H as [os H]. exists os. split; [exact H|].
  exact (stream_inv_reachable _ _ H).
Defined.

(** C2 as stated fails: a reset to the last [gsize] value followed by an
    append of two bytes wraps [head] around to 1, below both offsets. *)
Lemma stream_inv_broken_by_wrap :
  exists stream os, reachable any_op stream os /\ ~ stream_inv stream.
Proof.
  exists (mkStream 3 0 (gsize_modulus - 1) (gsize_modulus - 1) 1). eexists. split.
  - eapply (reach_step _ _ _ (OpAppend [x41; x42])).
    + eapply (reach_step _ _ _ (OpReset (gsize_modulus - 1))).
      * apply (reach_new _ os_boot).
      * split; [discriminate | reflexivity].
      * exact I.
      * vm_compute. reflexivity.
    + split; [cbn; lia | reflexivity].
    + exact I.
    + vm_compute. reflexivity.
  - unfold stream_inv. cbn. intros [_ H]. revert H. vm_compute. intros H. apply H. reflexivity.
Qed.

(** ** The retry policy of [_xpwrite] *)



Lemma sys_pwrite_log fd data len off os r os' :
  sys_pwrite fd data len off os = Done (r, os') ->
  os_log os' = os_log os ++ [(SysPwrite fd data len off, r)].
Proof.
  destruct (os_call_cases os fd) as [(e & sc & Hs)|[[Hp Hf]|[Hp (f & Hf)]]].
  - rewrite (sys_pwrite_fail _ _ _ _ _ _ _ Hs). intros H. injection H as <- <-. reflexivity.
  - rewrite (sys_pwrite_badf _ _ _ _ _ Hp Hf). intros H. injection H as <- <-. reflexivity.
  - rewrite (sys_pwrite_ok _ _ _ _ _ _ Hp Hf). intros H. injection H as <- <-. reflexivity.
Qed.







(** ** Every operation returns, or stops at the assertion *)

Lemma opens_kept_refl os : opens_kept os os.
Proof. intros fd H. exact H. Qed.

Lemma opens_kept_trans os1 os2 os3 :
  opens_kept os1 os2 -> opens_kept os2 os3 -> opens_kept os1 os3.
Proof. intros H1 H2 fd H. apply H2, H1, H. Qed.

Lemma os_frame_opens_kept fd os os' : os_frame fd os os' -> opens_kept os os'.
Proof. intros H. exact (fr_open _ _ _ H). Qed.

Lemma returns_kept_bind {A B} (m : M A) (k : A -> M B) os :
  returns m os (fun _ os1 => opens_kept os os1) ->
  (forall a os1, returns (k a) os1 (fun _ os' => opens_kept os1 os')) ->
  returns (mbind m k) os (fun _ os' => opens_kept os os').
Proof.
  intros Hm Hk. apply returns_bind. eapply returns_mono; [exact Hm|].
  cbv beta. intros a os1 H1. eapply returns_mono; [apply Hk|].
  cbv beta. intros b os' H2. eapply opens_kept_trans; eassumption.
Qed.

Lemma returns_kept_ret {A} (a : A) os : returns (mret a) os (fun _ os' => opens_kept os os').
Proof. apply returns_ret, opens_kept_refl. Qed.

Lemma _xtruncate_kept fd n os :
  returns (_xtruncate fd n) os (fun _ os' => opens_kept os os').
Proof.
  eapply returns_mono; [apply _xtruncate_frame|].
  intros [] os'. apply os_frame_opens_kept.
Qed.

Lemma _xpread_kept fd len off os :
  is_gsize len -> returns (_xpread fd len off) os (fun _ os' => opens_kept os os').
Proof.
  intros H. eapply returns_mono; [apply (_xpread_frame fd len off os H)|].
  cbv beta. intros res os' [_ Hfr]. eapply os_frame_opens_kept, Hfr.
Qed.

Lemma sys_lseek_kept fd off os :
  returns (sys_lseek fd off) os (fun _ os' => opens_kept os os').
Proof.
  unfold returns, sys_lseek. os_cases os;
    destruct (files !! fd); cbn; unfold opens_kept; cbn; auto.
Qed.

(** The splice on an open descriptor, in terms of its copy loop. *)
Lemma sys_splice_open fd output os f err sent sc :
  os_files os !! fd = Some f ->
  splice_chunks (os_script os) (drop (Z.to_nat (default 0 (os_pos os !! fd))) f)
  = (err, sent, sc) ->
  sys_splice fd output os
  = Done ((match err with None => true | Some _ => false end, output ++ sent),
          mkOS (os_files os)
               (<[fd := default 0 (os_pos os !! fd) + Z.of_nat (length sent)]> (os_pos os))
               sc
               (os_log os ++ [(SysSplice fd,
                               match err with
                               | None => RetOk (Z.of_nat (length sent))
                               | Some e => RetErr e
                               end)])).
Proof.
  intros Hf Hc. unfold sys_splice, mbind, get_file, get_pos. rewrite Hf.
  cbv beta iota. rewrite Hc. destruct err; reflexivity.
Qed.

Lemma _xwrite_contents_kept fd output os :
  returns (_xwrite_contents fd output) os (fun _ os' => opens_kept os os').
Proof.
  unfold _xwrite_contents. destruct (fd =? 0); [apply returns_kept_ret|].
  destruct (os_files os !! fd) as [f|] eqn:Hf.
  - destruct (splice_chunks (os_script os)
                (drop (Z.to_nat (default 0 (os_pos os !! fd))) f)) as [[err sent] sc] eqn:Hc.
    unfold returns. rewrite (sys_splice_open _ output _ _ _ _ _ Hf Hc).
    unfold opens_kept. cbn. auto.
  - unfold returns, sys_splice, mbind at 1, get_file. rewrite Hf.
    os_cases os; unfold opens_kept; cbn; auto.
Qed.

Lemma reset_kept stream k os :
  returns (_vte_file_stream_reset stream k) os (fun _ os' => opens_kept os os').
Proof.
  unfold _vte_file_stream_reset.
  apply returns_kept_bind; [|intros _ os1; apply returns_kept_bind].
  - destruct (negb (fd0 stream =? 0)); [apply _xtruncate_kept | apply returns_kept_ret].
  - destruct (negb (fd1 stream =? 0)); [apply _xtruncate_kept | apply returns_kept_ret].
  - intros _ os2. apply returns_kept_ret.
Qed.

Lemma truncate_kept stream offset os :
  returns (_vte_file_stream_truncate stream offset) os (fun _ os' => opens_kept os os').
Proof.
  unfold _vte_file_stream_truncate.
  apply returns_kept_bind; [|intros s1 os1; apply returns_kept_bind].
  - destruct (offset <? offset1 stream); [|apply returns_kept_ret].
    apply returns_kept_bind; [apply _xtruncate_kept | intros; apply returns_kept_ret].
  - destruct (offset <? offset0 s1);
      (apply returns_kept_bind; [apply _xtruncate_kept | intros; apply returns_kept_ret]).
  - intros; apply returns_kept_ret.
Qed.

Lemma new_page_kept stream os :
  returns (_vte_file_stream_new_page stream) os (fun _ os' => opens_kept os os').
Proof.
  unfold _vte_file_stream_new_page.
  apply returns_kept_bind; [apply _xtruncate_kept | intros; apply returns_kept_ret].
Qed.

Lemma read_kept stream offset len os :
  is_gsize len ->
  returns (_vte_file_stream_read stream offset len) os (fun _ os' => opens_kept os os').
Proof.
  intros Hlen. unfold _vte_file_stream_read.
  assert (Hcur : forall offset len buf os,
    is_gsize len ->
    returns (read_current stream offset len buf) os (fun _ os' => opens_kept os os')).
  { intros offset' len' buf os0 Hl. unfold read_current.
    apply returns_kept_bind; [apply _xpread_kept, Hl|].
    intros [l bytes] os1. destruct (gsize_sub len' l =? 0); apply returns_kept_ret. }
  destruct (offset <? offset1 stream); [apply returns_kept_ret|].
  destruct (offset <? offset0 stream); [|apply Hcur, Hlen].
  apply returns_kept_bind; [apply _xpread_kept, Hlen|].
  intros [l bytes] os1. destruct (gsize_sub len l =? 0); [apply returns_kept_ret|].
  apply Hcur, gsize_wrap_range.
Qed.

Lemma write_contents_kept stream output offset os :
  returns (_vte_file_stream_write_contents stream output offset) os
          (fun _ os' => opens_kept os os').
Proof.
  unfold _vte_file_stream_write_contents.
  destruct (offset <? offset1 stream); [apply returns_kept_ret|].
  assert (Hcur : forall output offset os,
    returns (sys_lseek (fd0 stream) (gsize_sub offset (offset0 stream)) ;;
             _xwrite_contents (fd0 stream) output) os (fun _ os' => opens_kept os os')).
  { intros. apply returns_kept_bind; [apply sys_lseek_kept|].
    intros. apply _xwrite_contents_kept. }
  destruct (offset <? offset0 stream); [|apply Hcur].
  apply returns_kept_bind; [apply sys_lseek_kept|]. intros _ os1.
  apply returns_kept_bind; [apply _xwrite_contents_kept|].
  intros [ok out] os2. destruct ok; cbn [negb]; [apply Hcur | apply returns_kept_ret].
Qed.

(** An append returns unless the assertion of [_xpwrite] stops it. *)
Lemma append_returns stream data len os :
  len = Z.of_nat (length data) -> len < gsize_modulus ->
  (fd0 stream =? 0) && mkstemp_fails os && negb (len =? 0) = false ->
  returns (_vte_file_stream_append stream data len) os (fun stream' os' =>
    opens_kept os os'
    /\ head stream' = gsize_add (head stream) len
    /\ offset0 stream' = offset0 stream /\ offset1 stream' = offset1 stream
    /\ fd1 stream' = fd1 stream
    /\ (fd0 stream' = fd0 stream
        \/ (fd0 stream = 0 /\ 3 <= fd0 stream' /\ os_files os !! fd0 stream' = None
            /\ is_Some (os_files os' !! fd0 stream')))).
Proof.
  intros Hlen Hmax Hc. unfold _vte_file_stream_append.
  apply returns_bind. eapply returns_mono; [apply ensure_fd0_spec|]. cbv beta.
  intros s1 os1 (H1 & H2 & H3 & H4 & Hfr & Hz & Hsame & Hnew).
  assert (Hfd : fd0 s1 <> 0 \/ len = 0).
  { destruct (Z.eqb_spec len 0) as [|Hl]; [right; assumption | left].
    intros Hfd. apply Hz in Hfd as [Ha Hb].
    apply Z.eqb_eq in Ha. rewrite Ha, Hb in Hc. discriminate. }
  assert (Hopen1 : fd0 s1 = fd0 stream
                   \/ (fd0 stream = 0 /\ 3 <= fd0 s1 /\ os_files os !! fd0 s1 = None
                       /\ is_Some (os_files os1 !! fd0 s1))).
  { destruct (Z.eq_dec (fd0 stream) 0) as [Hz0|Hnz0].
    - destruct (mkstemp_fails os) eqn:Hm.
      + left. rewrite Hz0. tauto.
      + right. destruct (Hnew Hz0 eq_refl) as [-> ->]. splits; auto.
        * apply fresh_fd_ge.
        * apply fresh_fd_fresh.
        * cbn. rewrite lookup_insert_eq. eauto.
    - left. destruct (Hsame Hnz0) as [-> _]. reflexivity. }
  apply returns_bind. eapply returns_mono.
  - apply (_xpwrite_frame (fd0 s1) data len (gsize_sub (head s1) (offset0 s1)) os1
             Hlen Hmax Hfd).
  - cbv beta. intros [] os2 Hfr2. apply returns_ret.
    cbn [fd0 fd1 offset0 offset1 head]. rewrite H4.
    splits; auto.
    + eapply opens_kept_trans; eapply os_frame_opens_kept; eassumption.
    + destruct Hopen1 as [H|(Ha & Hb & Hc' & Hd)]; [left; exact H | right].
      splits; auto. apply (fr_open _ _ _ Hfr2), Hd.
Qed.

Lemma run_op_returns (o : op) (stream : VteFileStream) (os : OS) :
  op_typed o ->
  match o with
  | OpAppend data =>
    (fd0 stream =? 0) && mkstemp_fails os && negb (Z.of_nat (length data) =? 0) = false
  | _ => True
  end ->
  returns (run_op o stream) os (fun _ os' => opens_kept os os').
Proof.
  intros Hty Hok. destruct o as [k|data|offset len|offset| | |output offset]; cbn [run_op].
  - apply reset_kept.
  - eapply returns_mono; [apply append_returns; [reflexivity | apply Hty | exact Hok]|].
    cbv beta. tauto.
  - apply returns_kept_bind; [apply read_kept, Hty | intros; apply returns_kept_ret].
  - apply truncate_kept.
  - apply new_page_kept.
  - apply returns_kept_ret.
  - apply returns_kept_bind; [apply write_contents_kept | intros; apply returns_kept_ret].
Qed.

(** No operation runs out of fuel: the loops always finish. *)
Lemma run_op_never_diverges (o : op) (stream : VteFileStream) (os : OS) :
  op_typed o -> run_op o stream os <> Diverged.
Proof.
  intros Hty.
  assert (Hret : forall (Q : VteFileStream -> OS -> Prop),
            returns (run_op o stream) os Q -> run_op o stream os <> Diverged).
  { intros Q H. unfold returns in H. destruct (run_op o stream os); [discriminate.. | tauto]. }
  destruct o as [k|data|offset len|offset| | |output offset];
    try (eapply Hret; apply run_op_returns; [exact Hty | exact I]).
  destruct ((fd0 stream =? 0) && mkstemp_fails os
            && negb (Z.of_nat (length data) =? 0)) eqn:Hc.
  - cbn [run_op]. unfold _vte_file_stream_append.
    pose proof (ensure_fd0_spec stream os) as He.
    apply returns_Done in He as (s1 & os1 & Hs1 & _ & _ & _ & _ & _ & Hz & _).
    apply andb_prop in Hc as [Hc Hl]. apply andb_prop in Hc as [Hc Hm].
    apply Z.eqb_eq in Hc. apply negb_true_iff, Z.eqb_neq in Hl.
    unfold mbind at 1. rewrite Hs1.
    assert (Hfd : fd0 s1 = 0) by tauto.
    unfold mbind. rewrite Hfd, _xpwrite_assert by exact Hl. discriminate.
  - eapply Hret. apply run_op_returns; [exact Hty | exact Hc].
Qed.

(** ** The descriptors of a reachable stream *)

Lemma handles_ok_kept stream os os' :
  handles_ok stream os -> opens_kept os os' -> handles_ok stream os'.
Proof.
  intros (H0 & H1 & Hd) Hk. unfold handles_ok. splits; auto.
  - destruct H0; auto.
  - destruct H1; auto.
Qed.

Lemma handles_ok_fields stream stream' os :
  fd0 stream' = fd0 stream -> fd1 stream' = fd1 stream ->
  handles_ok stream os -> handles_ok stream' os.
Proof. unfold handles_ok. intros -> ->. auto. Qed.

Lemma handles_ok_swapped stream stream' os :
  fd0 stream' = fd1 stream -> fd1 stream' = fd0 stream ->
  handles_ok stream os -> handles_ok stream' os.
Proof.
  unfold handles_ok. intros -> -> (H0 & H1 & Hd). splits; auto.
  intros H. symmetry in H. rewrite <- H. auto.
Qed.

Lemma returns_inv {A} (m : M A) os (Q : A -> OS -> Prop) a os' :
  returns m os Q -> m os = Done (a, os') -> Q a os'.
Proof. unfold returns. intros H E. rewrite E in H. exact H. Qed.

Lemma truncate_fds stream offset os stream' os' :
  _vte_file_stream_truncate stream offset os = Done (stream', os') ->
  (fd0 stream' = fd0 stream /\ fd1 stream' = fd1 stream)
  \/ (fd0 stream' = fd1 stream /\ fd1 stream' = fd0 stream).
Proof.
  unfold _vte_file_stream_truncate. intros H.
  apply mbind_Done in H as (s1 & os1 & H1 & H).
  apply mbind_Done in H as (s2 & os2 & H2 & H).
  injection H as <- _. cbn [fd0 fd1].
  assert (E1 : fd0 s1 = fd0 stream /\ fd1 s1 = fd1 stream).
  { destruct (offset <? offset1 stream).
    - apply mbind_Done in H1 as (? & ? & _ & H1). injection H1 as <- _. auto.
    - injection H1 as <- _. auto. }
  destruct E1 as [<- <-].
  destruct (offset <? offset0 s1);
    apply mbind_Done in H2 as (? & ? & _ & H2); injection H2 as <- _; cbn; auto.
Qed.

Lemma append_Done_guard stream data len os stream' os' :
  _vte_file_stream_append stream data len os = Done (stream', os') ->
  (fd0 stream =? 0) && mkstemp_fails os && negb (len =? 0) = false.
Proof.
  intros H. destruct ((fd0 stream =? 0) && mkstemp_fails os && negb (len =? 0)) eqn:Hc;
    [|reflexivity].
  exfalso. unfold _vte_file_stream_append in H.
  pose proof (ensure_fd0_spec stream os) as He.
  apply returns_Done in He as (s1 & os1 & Hs1 & _ & _ & _ & _ & _ & Hz & _).
  apply andb_prop in Hc as [Hc Hl]. apply andb_prop in Hc as [Hc Hm].
  apply Z.eqb_eq in Hc. apply negb_true_iff, Z.eqb_neq in Hl.
  unfold mbind at 1 in H. rewrite Hs1 in H.
  assert (Hfd : fd0 s1 = 0) by tauto.
  unfold mbind in H. rewrite Hfd, _xpwrite_assert in H by exact Hl. discriminate.
Qed.

(** In every reachable state each descriptor of the stream is absent or
    open, and the two are distinct unless absent: the side conditions of the
    theorems on rotation, truncation and reading back are met there. *)
Lemma handles_reachable allowed stream os :
  reachable allowed stream os -> handles_ok stream os.
Proof.
  intros H.
  induction H as [os|stream os sc _ IH|stream os o stream' os' _ IH Hty Hok Hrun].
  - unfold handles_ok. cbn. auto.
  - exact IH.
  - destruct o as [k|data|offset len|offset| | |output offset]; cbn [run_op] in Hrun.
    + pose proof (returns_inv _ _ _ _ _ (reset_kept stream k os) Hrun) as Hk.
      apply reset_fields in Hrun as ->.
      eapply handles_ok_fields; [| |eapply handles_ok_kept; eassumption]; reflexivity.
    + pose proof (append_Done_guard _ _ _ _ _ _ Hrun) as Hg.
      pose proof (returns_inv _ _ _ _ _
                    (append_returns stream data _ os eq_refl (proj2 Hty) Hg) Hrun)
        as (Hk & _ & _ & _ & E1 & Hfd).
      pose proof (handles_ok_kept _ _ _ IH Hk) as (H0 & H1 & Hd).
      unfold handles_ok. rewrite E1.
      destruct Hfd as [->|(Hz & Hge & Hnew & Hopen)]; [auto|].
      splits; auto. intros Heq.
      destruct IH as (_ & [Hz1|Hopen1] & _); [lia|].
      rewrite <- Heq, Hnew in Hopen1. destruct Hopen1; discriminate.
    + pose proof (returns_inv _ _ _ _ _
                    (run_op_returns (OpRead offset len) stream os Hty I) Hrun) as Hk.
      apply run_op_unchanged in Hrun as ->. eapply handles_ok_kept; eassumption.
    + pose proof (returns_inv _ _ _ _ _ (truncate_kept stream offset os) Hrun) as Hk.
      apply truncate_fds in Hrun as [[E0 E1]|[E0 E1]].
      * eapply handles_ok_fields; [| |eapply handles_ok_kept]; eassumption.
      * eapply handles_ok_swapped; [| |eapply handles_ok_kept]; eassumption.
    + pose proof (returns_inv _ _ _ _ _ (new_page_kept stream os) Hrun) as Hk.
      apply new_page_fields in Hrun as ->.
      eapply handles_ok_swapped; [| |eapply handles_ok_kept; eassumption]; reflexivity.
    + injection Hrun as <- <-. exact IH.
    + pose proof (returns_inv _ _ _ _ _
                    (run_op_returns (OpWriteContents output offset) stream os Hty I) Hrun)
        as Hk.
      apply run_op_unchanged in Hrun as ->. eapply handles_ok_kept; eassumption.
Qed.

(** The side conditions of the theorems on truncation, rotation and
    reading back hold in every state reached without a wrap of [head]. *)
Lemma reachable_side_conditions (stream : VteFileStream) (os : OS) :
  reachable no_wrap stream os ->
  0 <= offset1 stream <= offset0 stream
  /\ head stream < gsize_modulus
  /\ (fd0 stream = 0 \/ fd0 stream <> fd1 stream)
  /\ (fd0 stream = 0 \/ is_Some (os_files os !! fd0 stream)).
Proof.
  intros H. pose proof (stream_bounds_reachable _ _ H) as Hb.
  apply handles_reachable in H as (H0 & _ & Hd).
  assert (Hdist : fd0 stream = 0 \/ fd0 stream <> fd1 stream).
  { destruct (Z.eq_dec (fd0 stream) (fd1 stream)); auto. }
  splits; try tauto; lia.
Qed.

(** ** The loops at work *)

(** Short writes are completed: two partial transfers and a final one store
    the four bytes. *)
Example append_completes_short_writes :
  exists os',
    _vte_file_stream_append _vte_file_stream_new AAAA 4
      (with_script [Normal; Short 1; Short 2] os_boot)
    = Done (mkStream 3 0 0 0 4, os')
    /\ os_files os' !! 3 = Some AAAA
    /\ os_log os' = [(SysMkstemp, RetOk 3);
                     (SysPwrite 3 AAAA 4 0, RetOk 1);
                     (SysPwrite 3 [x41; x41; x41] 3 1, RetOk 2);
                     (SysPwrite 3 [x41] 1 3, RetOk 1)].
Proof. eexists. split; [vm_compute; reflexivity|]. split; reflexivity. Qed.

(** An interrupted read is issued again, and a read that straddles the two
    generations takes the rest from the current store. *)
Example read_straddles_generations :
  exists os',
    _vte_file_stream_read (mkStream 3 4 8 4 12) 6 4
      (mkOS {[3 := CCCC; 4 := BBBB]} ∅ [Fail EINTR] [])
    = Done ((true, [x42; x42; x43; x43]), os')
    /\ os_log os' = [(SysPread 4 4 2, RetErr EINTR);
                     (SysPread 4 4 2, RetOk 2);
                     (SysPread 4 2 4, RetOk 0);
                     (SysPread 3 2 0, RetOk 2)].
Proof. eexists. split; [vm_compute; reflexivity | reflexivity]. Qed.

(** A truncation below both generations empties both stores and makes the
    former previous store the current one. *)
Example truncate_below_previous :
  exists os',
    _vte_file_stream_truncate (mkStream 3 4 8 4 12) 2
      (mkOS {[3 := CCCC; 4 := BBBB]} ∅ [] [])
    = Done (mkStream 4 3 2 2 2, os')
    /\ os_files os' !! 3 = Some [] /\ os_files os' !! 4 = Some [].
Proof. eexists. split; [vm_compute; reflexivity|]. split; reflexivity. Qed.

(** [write_contents] streams the previous store from the offset, then the
    whole current store. *)
Example write_contents_from_previous :
  exists os',
    _vte_file_stream_write_contents (mkStream 3 4 8 4 12) [] 6
      (mkOS {[3 := CCCC; 4 := BBBB]} ∅ [] [])
    = Done ((true, [x42; x42; x43; x43; x43; x43]), os').
Proof. eexists. vm_compute. reflexivity. Qed.

(** * Further properties of the primitives and of the stream *)

(** ** [_xpread] and [_xtruncate] under any script *)

(** The value [_xpread] returns is the number of bytes it delivered, and that
    is never more than was asked for. *)
Lemma xpread_loop_count fuel : forall fd len off total buf os,
  0 <= len -> 0 <= total -> total + len < gsize_modulus ->
  (length (os_script os) + Z.to_nat len + 1 <= fuel)%nat ->
  returns (xpread_loop fuel fd len off total buf) os (fun res os' =>
    exists got, res = (total + Z.of_nat (length got), buf ++ got)
                /\ Z.of_nat (length got) <= len
                /\ os_files os' = os_files os).
Proof.
  induction fuel as [|fuel IH]; intros fd len off total buf os Hlen Htot Hmax Hfuel; [lia|].
  cbn [xpread_loop].
  assert (Hstop : forall os1, os_files os1 = os_files os ->
    returns (mret (total, buf)) os1 (fun res os' =>
      exists got, res = (total + Z.of_nat (length got), buf ++ got)
                  /\ Z.of_nat (length got) <= len
                  /\ os_files os' = os_files os)).
  { intros os1 Hf. apply returns_ret. exists []. cbn. rewrite app_nil_r, Z.add_0_r.
    splits; auto. }
  destruct (Z.eqb_spec len 0) as [Hz|Hnz]; [apply Hstop; reflexivity|].
  apply returns_bind.
  destruct (os_call_cases os fd) as [(e & sc & Hs)|[[Hp Hn]|[Hp (f & Hs)]]].
  - eapply returns_eq; [apply (sys_pread_fail _ _ _ _ _ _ Hs)|].
    cbv beta iota. set (os1 := logged _ _ os).
    destruct e; try (apply Hstop; reflexivity).
    eapply returns_mono.
    + apply (IH fd len off total buf os1 Hlen Htot Hmax).
      assert (Hne : os_script os <> []) by congruence.
      pose proof (logged_script_length (SysPread fd len off) (RetErr EINTR) os Hne).
      unfold os1. lia.
    + cbv beta. intros res os' (got & Hres & Hgot & Hfiles). exists got. splits; auto.
  - eapply returns_eq; [apply (sys_pread_badf _ _ _ _ Hp Hn)|]. apply Hstop. reflexivity.
  - eapply returns_eq; [apply (sys_pread_ok _ _ _ _ _ Hp Hs)|].
    cbv beta iota.
    set (bytes := take (Z.to_nat (moved os len)) (drop (Z.to_nat off) f)).
    set (os1 := logged _ _ os).
    destruct (Z.eqb_spec (Z.of_nat (length bytes)) 0) as [Hr|Hr]; [apply Hstop; reflexivity|].
    assert (Hb : (length bytes <= Z.to_nat len)%nat).
    { pose proof (moved_range os len). unfold bytes. rewrite length_take. lia. }
    rewrite (gsize_sub_small len), (gsize_add_small total) by lia.
    eapply returns_mono.
    + apply (IH fd _ (gsize_add off (Z.of_nat (length bytes))) _ (buf ++ bytes) os1); try lia.
      assert (Hl1 : (length (os_script os1) <= length (os_script os))%nat).
      { unfold os1. cbn. destruct (os_script os); cbn; lia. }
      lia.
    + cbv beta. intros res os' (got & Hres & Hgot & Hfiles).
      exists (bytes ++ got). rewrite length_app, app_assoc. splits.
      * rewrite Hres. f_equal. lia.
      * lia.
      * exact Hfiles.
Qed.

Lemma _xpread_count fd len off os :
  is_gsize len ->
  returns (_xpread fd len off) os (fun res os' =>
    exists got, res = (Z.of_nat (length got), got)
                /\ Z.of_nat (length got) <= len
                /\ os_files os' = os_files os).
Proof.
  intros [Hl Hm]. unfold _xpread.
  destruct (negb (len =? 0) && (fd =? 0)).
  - apply returns_ret. exists []. cbn. splits; auto.
  - apply returns_pending.
    eapply returns_mono; [apply (xpread_loop_count _ fd len off 0 [] os); lia|].
    cbv beta. intros res os' (got & Hres & Hgot & Hfiles). exists got.
    rewrite Z.add_0_l in Hres. auto.
Qed.

(** X1: whatever the script does, [_xpread] returns, the count it returns
    is the number of bytes it delivered, that number is at most [len], and
    no file has changed. *)
Theorem xpread_returns_count_delivered (fd len offset : Z) (os : OS) :
  is_gsize len ->
  exists buf os',
    _xpread fd len offset os = Done ((Z.of_nat (length buf), buf), os')
    /\ Z.of_nat (length buf) <= len
    /\ os_files os' = os_files os.
Proof.
  intros Hlen. pose proof (_xpread_count fd len offset os Hlen) as H.
  apply returns_Done in H as (res & os' & Hrun & got & -> & Hgot & Hfiles).
  exists got, os'. auto.
Qed.

Lemma xpread_returns_count_delivered_witness :
  exists buf os',
    _xpread 3 4 1 (mkOS {[3 := [x41; x42; x43]]} ∅ [Short 1; Fail EIO] [])
    = Done ((Z.of_nat (length buf), buf), os')
    /\ Z.of_nat (length buf) <= 4
    /\ os_files os' = {[3 := [x41; x42; x43]]}.
Proof.
  refine (xpread_returns_count_delivered 3 4 1
            (mkOS {[3 := [x41; x42; x43]]} ∅ [Short 1; Fail EIO] []) _).
  split; [lia | reflexivity].
Defined.

Lemma xpread_loop_interrupted k : forall fuel fd len off total buf os rest,
  len <> 0 -> os_script os = replicate k (Fail EINTR) ++ rest ->
  xpread_loop (k + fuel) fd len off total buf os
  = xpread_loop fuel fd len off total buf (interrupted k (SysPread fd len off) os).
Proof.
  induction k as [|k IH]; intros fuel fd len off total buf os rest Hlen Hs.
  - unfold interrupted. cbn. rewrite app_nil_r, drop_0. destruct os; reflexivity.
  - cbn [Nat.add xpread_loop]. apply Z.eqb_neq in Hlen as Hz. rewrite Hz.
    unfold mbind at 1. rewrite (sys_pread_fail _ _ _ _ _ _ Hs).
    rewrite (IH fuel fd len off total buf _ rest Hlen).
    + f_equal. unfold interrupted, logged. cbn [os_files os_pos os_script os_log].
      rewrite Hs. cbn [tail replicate app drop]. rewrite <- app_assoc. reflexivity.
    + cbn. rewrite Hs. reflexivity.
Qed.

Lemma interrupted_script k call os rest :
  os_script os = replicate k (Fail EINTR) ++ rest ->
  os_script (interrupted k call os) = rest.
Proof.
  intros Hs. unfold interrupted. cbn. rewrite Hs, drop_app_length'; [reflexivity|].
  symmetry. apply length_replicate.
Qed.

(** X2: [k] interrupted [pread]s are issued again with the same arguments:
    the call continues exactly as a call started after them would run, the
    [k] attempts being left in the log. *)
Theorem xpread_retries_interruptions (fd len offset : Z) (os : OS) (k : nat)
                                     (rest : list inject) :
  fd <> 0 -> len <> 0 ->
  os_script os = replicate k (Fail EINTR) ++ rest ->
  _xpread fd len offset os
  = _xpread fd len offset (interrupted k (SysPread fd len offset) os).
Proof.
  intros Hfd Hlen Hs. unfold _xpread.
  apply Z.eqb_neq in Hfd. rewrite Hfd, andb_false_r.
  rewrite !mbind_pending.
  rewrite (interrupted_script _ _ _ _ Hs), Hs, length_app, length_replicate.
  replace (S (k + length rest + Z.to_nat len)) with (k + S (length rest + Z.to_nat len))%nat
    by lia.
  apply (xpread_loop_interrupted k _ fd len offset 0 [] os rest Hlen Hs).
Qed.

Lemma xpread_retries_interruptions_witness :
  _xpread 3 2 0 (mkOS {[3 := [x41; x42]]} ∅ [Fail EINTR; Fail EINTR; Short 1] [])
  = _xpread 3 2 0
      (interrupted 2 (SysPread 3 2 0)
         (mkOS {[3 := [x41; x42]]} ∅ [Fail EINTR; Fail EINTR; Short 1] [])).
Proof.
  apply (xpread_retries_interruptions 3 2 0 _ 2%nat [Short 1]); [lia | lia | reflexivity].
Defined.

Lemma xtruncate_loop_interrupted k : forall fuel fd n os rest,
  os_script os = replicate k (Fail EINTR) ++ rest ->
  xtruncate_loop (k + fuel) fd n os
  = xtruncate_loop fuel fd n (interrupted k (SysFtruncate fd n) os).
Proof.
  induction k as [|k IH]; intros fuel fd n os rest Hs.
  - unfold interrupted. cbn. rewrite app_nil_r, drop_0. destruct os; reflexivity.
  - cbn [Nat.add xtruncate_loop].
    unfold mbind at 1. rewrite (sys_ftruncate_fail _ _ _ _ _ Hs).
    rewrite (IH fuel fd n _ rest).
    + f_equal. unfold interrupted, logged. cbn [os_files os_pos os_script os_log].
      rewrite Hs. cbn [tail replicate app drop]. rewrite <- app_assoc. reflexivity.
    + cbn. rewrite Hs. reflexivity.
Qed.

(** X3: [_xtruncate] on an open descriptor repeats an interrupted
    [ftruncate]; when the event after [k] interruptions is not an error the
    file ends up cut, or extended with zeros, to the length asked for. *)
Theorem xtruncate_retries_interruptions (fd n : Z) (os : OS) (k : nat)
                                        (rest : list inject) (f : list byte) :
  fd <> 0 ->
  os_script os = replicate k (Fail EINTR) ++ rest ->
  match rest with Fail _ :: _ => False | _ => True end ->
  os_files os !! fd = Some f ->
  _xtruncate fd n os
  = Done (tt, stored fd (resize (Z.to_nat n) x00 f)
                (logged (SysFtruncate fd n) (RetOk 0)
                   (interrupted k (SysFtruncate fd n) os))).
Proof.
  intros Hfd Hs Hrest Hf.
  set (os1 := interrupted k (SysFtruncate fd n) os).
  assert (Hs1 : os_script os1 = rest) by (apply interrupted_script, Hs).
  assert (Hp1 : proceeds os1) by (unfold proceeds; rewrite Hs1; exact Hrest).
  rewrite <- (_xtruncate_ok fd n os1 f Hfd Hp1 Hf).
  unfold _xtruncate. apply Z.eqb_neq in Hfd. rewrite Hfd.
  rewrite !mbind_pending, Hs1, Hs, length_app, length_replicate.
  replace (S (k + length rest)) with (k + S (length rest))%nat by lia.
  apply (xtruncate_loop_interrupted k _ fd n os rest Hs).
Qed.

Lemma xtruncate_retries_interruptions_witness :
  _xtruncate 3 1 (mkOS {[3 := [x41; x42]]} ∅ [Fail EINTR; Fail EINTR] [])
  = Done (tt, stored 3 (resize (Z.to_nat 1) x00 [x41; x42])
                (logged (SysFtruncate 3 1) (RetOk 0)
                   (interrupted 2 (SysFtruncate 3 1)
                      (mkOS {[3 := [x41; x42]]} ∅ [Fail EINTR; Fail EINTR] [])))).
Proof.
  apply (xtruncate_retries_interruptions 3 1 _ 2%nat [] [x41; x42]);
    [lia | reflexivity | exact I | reflexivity].
Defined.

(** ** Reads *)

Lemma read_current_count stream offset len buf os :
  is_gsize len ->
  returns (read_current stream offset len buf) os (fun res os' =>
    exists got, res.2 = buf ++ got
                /\ Z.of_nat (length got) <= len
                /\ (res.1 = true <-> Z.of_nat (length got) = len)
                /\ os_files os' = os_files os).
Proof.
  intros Hlen. unfold read_current. apply returns_bind.
  eapply returns_mono; [apply (_xpread_count _ _ _ _ Hlen)|].
  cbv beta. intros res os' (got & -> & Hgot & Hfiles).
  destruct Hlen as [Hl Hm].
  rewrite gsize_sub_small by lia.
  destruct (Z.eqb_spec (len - Z.of_nat (length got)) 0) as [Hz|Hnz];
    apply returns_ret; exists got; cbn [fst snd]; splits; auto; lia.
Qed.

Lemma read_count stream offset len os :
  is_gsize len -> offset1 stream <= offset ->
  returns (_vte_file_stream_read stream offset len) os (fun res os' =>
    Z.of_nat (length res.2) <= len
    /\ (res.1 = true <-> Z.of_nat (length res.2) = len)
    /\ os_files os' = os_files os).
Proof.
  intros Hlen Hoff. unfold _vte_file_stream_read.
  apply Z.ltb_ge in Hoff. rewrite Hoff.
  destruct (offset <? offset0 stream).
  - apply returns_bind.
    eapply returns_mono; [apply (_xpread_count _ _ _ _ Hlen)|].
    cbv beta. intros res os1 (got & -> & Hgot & Hfiles).
    destruct Hlen as [Hl Hm].
    rewrite gsize_sub_small by lia.
    destruct (Z.eqb_spec (len - Z.of_nat (length got)) 0) as [Hz|Hnz].
    + apply returns_ret. cbn [fst snd]. splits; auto; lia.
    + eapply returns_mono.
      * apply (read_current_count stream _ (len - Z.of_nat (length got)) got os1).
        unfold is_gsize. lia.
      * cbv beta. intros [b buf] os' (got2 & Hbuf & Hgot2 & Hb & Hfiles2).
        cbn [fst snd] in *. subst buf. rewrite length_app.
        splits; try lia; [|congruence].
        rewrite Hb. lia.
  - eapply returns_mono; [apply (read_current_count stream offset len [] os Hlen)|].
    cbv beta. intros [b buf] os' (got & Hbuf & Hgot & Hb & Hfiles).
    cbn [fst snd app] in *. subst buf. auto.
Qed.

(** X4: for every script and every offset not below [offset[1]], a read
    returns, never delivers more than [len] bytes, returns TRUE exactly when
    it delivered [len] bytes, and changes no file. *)
Theorem read_succeeds_iff_filled (stream : VteFileStream) (offset len : Z) (os : OS) :
  is_gsize len -> offset1 stream <= offset ->
  exists ok buf os',
    _vte_file_stream_read stream offset len os = Done ((ok, buf), os')
    /\ Z.of_nat (length buf) <= len
    /\ (ok = true <-> Z.of_nat (length buf) = len)
    /\ os_files os' = os_files os.
Proof.
  intros Hlen Hoff. pose proof (read_count stream offset len os Hlen Hoff) as H.
  apply returns_Done in H as ([ok buf] & os' & Hrun & H).
  exists ok, buf, os'. split; [exact Hrun | exact H].
Qed.

Lemma read_succeeds_iff_filled_witness :
  exists ok buf os',
    _vte_file_stream_read (mkStream 3 4 8 4 12) 6 4
      (mkOS {[3 := CCCC; 4 := BBBB]} ∅ [Fail EINTR; Normal; Normal; Fail EIO] [])
    = Done ((ok, buf), os')
    /\ Z.of_nat (length buf) <= 4
    /\ (ok = true <-> Z.of_nat (length buf) = 4)
    /\ os_files os' = {[3 := CCCC; 4 := BBBB]}.
Proof.
  refine (read_succeeds_iff_filled (mkStream 3 4 8 4 12) 6 4
            (mkOS {[3 := CCCC; 4 := BBBB]} ∅ [Fail EINTR; Normal; Normal; Fail EIO] []) _ _).
  - split; [lia | reflexivity].
  - cbn. lia.
Defined.

(** X5: on a reliable system [_xpread] delivers what the file holds of the
    range [offset, offset + len), however the single [pread]s are cut
    short: all of it, or less when the file ends before. *)
Theorem xpread_delivers_stored_range (fd len offset : Z) (os : OS) (f : list byte) :
  fd <> 0 -> reliable os -> os_files os !! fd = Some f ->
  0 <= len -> 0 <= offset -> offset + len < gsize_modulus ->
  let got := take (Z.to_nat len) (drop (Z.to_nat offset) f) in
  exists os',
    _xpread fd len offset os = Done ((Z.of_nat (length got), got), os')
    /\ os_files os' = os_files os.
Proof.
  intros Hfd Hrel Hf Hlen Hoff Hmax got.
  pose proof (_xpread_reliable fd len offset os f Hfd Hrel Hf Hlen Hoff Hmax) as H.
  cbv zeta in H. apply returns_Done in H as (res & os' & Hrun & -> & Hfiles & _).
  exists os'. auto.
Qed.

Lemma xpread_delivers_stored_range_witness :
  exists os',
    _xpread 3 3 1 (mkOS {[3 := [x41; x42; x43; x44; x45]]} ∅ [Short 1; Short 1] [])
    = Done ((3, [x42; x43; x44]), os')
    /\ os_files os' = {[3 := [x41; x42; x43; x44; x45]]}.
Proof.
  refine (xpread_delivers_stored_range 3 3 1
            (mkOS {[3 := [x41; x42; x43; x44; x45]]} ∅ [Short 1; Short 1] [])
            [x41; x42; x43; x44; x45] _ _ _ _ _ _).
  - lia.
  - repeat constructor.
  - reflexivity.
  - lia.
  - lia.
  - reflexivity.
Defined.

(** X6: on a reliable system [_xpwrite] leaves the file holding [data] at
    [offset], with a gap before [offset] filled with zeros and the bytes
    after the written range kept, however the single [pwrite]s are cut
    short; no other file changes. *)
Theorem xpwrite_stores_all (fd : Z) (data : list byte) (offset : Z) (os : OS)
                           (f : list byte) :
  fd <> 0 -> reliable os -> os_files os !! fd = Some f ->
  0 <= offset -> offset + Z.of_nat (length data) < gsize_modulus ->
  exists os',
    _xpwrite fd data (Z.of_nat (length data)) offset os = Done (tt, os')
    /\ os_files os' !! fd
       = Some (if decide (data = []) then f
               else resize (Z.to_nat offset) x00 f ++ data
                      ++ drop (Z.to_nat offset + length data)%nat f)
    /\ forall fd', fd' <> fd -> os_files os' !! fd' = os_files os !! fd'.
Proof.
  intros Hfd Hrel Hf Hoff Hmax.
  pose proof (_xpwrite_reliable fd data _ offset os f Hfd Hrel Hf eq_refl Hoff Hmax) as H.
  apply returns_Done in H as ([] & os' & Hrun & Hfiles & Hfr).
  exists os'. split; [exact Hrun|]. split; [|apply (fr_files _ _ _ Hfr)].
  rewrite Hfiles, lookup_insert_eq. f_equal.
  destruct (decide (data = [])) as [->|Hne]; [reflexivity|].
  apply file_write_nonempty, Hne.
Qed.

Lemma xpwrite_stores_all_witness :
  exists os',
    _xpwrite 3 [x41; x42; x43] 3 2 (mkOS {[3 := [x44]]} ∅ [Short 2] []) = Done (tt, os')
    /\ os_files os' !! 3 = Some [x44; x00; x41; x42; x43]
    /\ forall fd', fd' <> 3 -> os_files os' !! fd' = (∅ : gmap Z (list byte)) !! fd'.
Proof.
  destruct (xpwrite_stores_all 3 [x41; x42; x43] 2 (mkOS {[3 := [x44]]} ∅ [Short 2] [])
              [x44]) as (os' & Hrun & Hfile & Hoth).
  - lia.
  - repeat constructor.
  - reflexivity.
  - lia.
  - reflexivity.
  - exists os'. split; [exact Hrun|]. split; [exact Hfile|].
    intros fd' Hne. rewrite (Hoth fd' Hne). cbn. apply lookup_insert_ne. auto.
Defined.

(** X7: a read that starts in the previous generation runs on into the
    current one.  With the previous store holding its whole generation, a
    read of [len] bytes at [offset] delivers the first [len] bytes of what
    the previous store holds from [offset] on followed by the current store,
    and returns TRUE exactly when the two hold that many. *)
Theorem read_continues_into_current (stream : VteFileStream) (offset len : Z) (os : OS)
                                    (f1 f0 : list byte) :
  reliable os ->
  fd1 stream <> 0 -> fd0 stream <> 0 ->
  os_files os !! fd1 stream = Some f1 -> os_files os !! fd0 stream = Some f0 ->
  0 <= offset1 stream <= offset -> offset < offset0 stream ->
  Z.of_nat (length f1) = offset0 stream - offset1 stream ->
  0 <= len -> offset + len < gsize_modulus ->
  let retained := drop (Z.to_nat (offset - offset1 stream)) f1 ++ f0 in
  exists os',
    _vte_file_stream_read stream offset len os
    = Done ((len <=? Z.of_nat (length retained), take (Z.to_nat len) retained), os').
Proof.
  intros Hrel Hfd1 Hfd0 Hf1 Hf0 Ho1 Ho0 Hfull Hlen Hmax retained.
  unfold _vte_file_stream_read.
  assert (E1 : (offset <? offset1 stream) = false) by (apply Z.ltb_ge; lia).
  assert (E0 : (offset <? offset0 stream) = true) by (apply Z.ltb_lt; lia).
  rewrite E1, E0. rewrite (gsize_sub_small offset) by lia.
  set (p := drop (Z.to_nat (offset - offset1 stream)) f1) in *.
  assert (Hp : Z.of_nat (length p) = offset0 stream - offset).
  { unfold p. rewrite length_drop. lia. }
  pose proof (_xpread_reliable (fd1 stream) len (offset - offset1 stream) os f1
                Hfd1 Hrel Hf1 Hlen ltac:(lia) ltac:(lia)) as Hr.
  cbv zeta in Hr. fold p in Hr.
  apply returns_Done in Hr as (res & os1 & Hread & -> & Hfiles & Hfr).
  unfold mbind at 1. rewrite Hread.
  assert (Hgot : Z.of_nat (length (take (Z.to_nat len) p)) = Z.min len (Z.of_nat (length p))).
  { rewrite length_take. lia. }
  rewrite (gsize_sub_small len) by lia.
  unfold retained. rewrite length_app.
  destruct (Z.le_gt_cases len (Z.of_nat (length p))) as [Hle|Hgt].
  - replace (len - Z.of_nat (length (take (Z.to_nat len) p))) with 0 by lia.
    cbn [Z.eqb]. exists os1. unfold mret.
    rewrite take_app_le by lia.
    replace (len <=? Z.of_nat (length p + length f0)) with true
      by (symmetry; apply Z.leb_le; lia).
    reflexivity.
  - destruct (Z.eqb_spec (len - Z.of_nat (length (take (Z.to_nat len) p))) 0); [lia|].
    unfold read_current.
    rewrite (gsize_add_small offset) by lia.
    replace (gsize_sub (offset + Z.of_nat (length (take (Z.to_nat len) p))) (offset0 stream))
      with 0 by (rewrite gsize_sub_small; lia).
    set (len' := len - Z.of_nat (length (take (Z.to_nat len) p))).
    pose proof (_xpread_reliable (fd0 stream) len' 0 os1 f0 Hfd0
                  (reliable_frame _ _ _ Hfr Hrel)) as Hr2.
    rewrite Hfiles in Hr2. specialize (Hr2 Hf0 ltac:(lia) ltac:(lia) ltac:(lia)).
    cbv zeta in Hr2. change (Z.to_nat 0) with 0%nat in Hr2. rewrite drop_0 in Hr2.
    apply returns_Done in Hr2 as (res2 & os2 & Hread2 & -> & _).
    exists os2. unfold mbind. rewrite Hread2.
    rewrite (gsize_sub_small len') by (rewrite length_take; lia).
    rewrite (take_ge p) by lia.
    assert (Hbuf : p ++ take (Z.to_nat len') f0 = take (Z.to_nat len) (p ++ f0)).
    { rewrite take_app, (take_ge p) by lia. do 2 f_equal. unfold len'.
      rewrite (take_ge p) by lia. lia. }
    rewrite Hbuf.
    assert (Hl' : len' = len - Z.of_nat (length p)).
    { unfold len'. rewrite (take_ge p) by lia. reflexivity. }
    destruct (Z.eqb_spec (len' - Z.of_nat (length (take (Z.to_nat len') f0))) 0) as [Hz|Hnz];
      rewrite length_take in *.
    + replace (len <=? Z.of_nat (length p + length f0)) with true
        by (symmetry; apply Z.leb_le; lia).
      reflexivity.
    + replace (len <=? Z.of_nat (length p + length f0)) with false
        by (symmetry; apply Z.leb_gt; lia).
      reflexivity.
Qed.

Lemma read_continues_into_current_witness :
  exists os',
    _vte_file_stream_read (mkStream 3 4 8 4 12) 6 5
      (mkOS {[3 := CCCC; 4 := BBBB]} ∅ [Short 1] [])
    = Done ((true, [x42; x42; x43; x43; x43]), os').
Proof.
  refine (read_continues_into_current (mkStream 3 4 8 4 12) 6 5
            (mkOS {[3 := CCCC; 4 := BBBB]} ∅ [Short 1] []) BBBB CCCC
            _ _ _ _ _ _ _ _ _ _).
  - repeat constructor.
  - cbn. lia.
  - cbn. lia.
  - reflexivity.
  - reflexivity.
  - cbn. lia.
  - cbn. lia.
  - reflexivity.
  - lia.
  - reflexivity.
Defined.

(** ** Truncation below the current generation *)

Lemma _xtruncate_empties fd os :
  reliable os ->
  returns (_xtruncate fd 0) os (fun _ os' =>
    reliable os'
    /\ (forall fd', fd' <> fd -> os_files os' !! fd' = os_files os !! fd')
    /\ (fd = 0 -> os_files os' = os_files os)
    /\ (fd <> 0 -> (os_files os !! fd = None /\ os_files os' !! fd = None)
                   \/ (is_Some (os_files os !! fd) /\ os_files os' !! fd = Some []))).
Proof.
  intros Hrel. destruct (Z.eq_dec fd 0) as [->|Hnz].
  - eapply returns_eq; [apply _xtruncate_absent|]. splits; auto. contradiction.
  - eapply returns_mono; [apply (_xtruncate_reliable fd 0 os Hnz (reliable_proceeds _ Hrel))|].
    cbv beta. intros [] os1 [Hfr Hcase]. splits.
    + eapply reliable_frame; eassumption.
    + apply (fr_files _ _ _ Hfr).
    + contradiction.
    + intros _. destruct Hcase as [[Hn He]|(f & Hf & He)]; rewrite He.
      * left. auto.
      * right. split; [rewrite Hf; eauto|].
        change (Z.to_nat 0) with 0%nat. rewrite lookup_insert_eq, resize_0. reflexivity.
Qed.

Lemma read_of_empty_current_fails stream k os offset len :
  offset0 stream = k -> offset1 stream = k ->
  fd0 stream = 0 \/ os_files os !! fd0 stream = None
    \/ os_files os !! fd0 stream = Some [] ->
  k <= offset -> 0 < len < gsize_modulus ->
  exists os', _vte_file_stream_read stream offset len os = Done ((false, []), os').
Proof.
  intros H0 H1 Hcur Hoff Hlen.
  unfold _vte_file_stream_read, read_current. rewrite H0, H1.
  assert (Hlt : (offset <? k) = false) by (apply Z.ltb_ge; lia).
  rewrite Hlt.
  assert (Hempty : returns (_xpread (fd0 stream) len (gsize_sub offset k)) os
            (fun res os' => res = (0, []))).
  { destruct Hcur as [Hz|Hcur].
    - rewrite Hz. eapply returns_eq; [apply _xpread_absent|]. reflexivity.
    - eapply returns_mono; [apply _xpread_empty, Hcur|].
      cbv beta. intros res os' (Hres & _). exact Hres. }
  apply returns_Done in Hempty as (res & os' & Hread & ->).
  exists os'. unfold mbind. rewrite Hread.
  rewrite (gsize_sub_small len 0), Z.sub_0_r by lia.
  destruct (Z.eqb_spec len 0); [lia | reflexivity].
Qed.

(** X8: a truncation to an offset below both generations empties both
    stores, exchanges the descriptors and sets [offset[0]], [offset[1]] and
    [head] to the offset; from then on a read of at least one byte at or
    after that offset fails. *)
Theorem truncate_below_previous_resets (stream : VteFileStream) (offset : Z) (os : OS) :
  reliable os ->
  offset < offset1 stream -> offset < offset0 stream ->
  exists os',
    _vte_file_stream_truncate stream offset os
    = Done (mkStream (fd1 stream) (fd0 stream) offset offset offset, os')
    /\ (forall fd, fd = fd0 stream \/ fd = fd1 stream -> fd <> 0 ->
          is_Some (os_files os !! fd) -> os_files os' !! fd = Some [])
    /\ (forall fd, fd <> fd0 stream -> fd <> fd1 stream ->
          os_files os' !! fd = os_files os !! fd)
    /\ (forall os2 off len,
          os_files os2 = os_files os' -> offset <= off -> 0 < len < gsize_modulus ->
          exists os3,
            _vte_file_stream_read (mkStream (fd1 stream) (fd0 stream) offset offset offset)
              off len os2 = Done ((false, []), os3)).
Proof.
  intros Hrel H1 H0. unfold _vte_file_stream_truncate.
  apply Z.ltb_lt in H1 as E1. apply Z.ltb_lt in H0 as E0. rewrite E1.
  pose proof (_xtruncate_empties (fd1 stream) os Hrel) as Ha.
  apply returns_Done in Ha as ([] & os1 & Ht1 & Hrel1 & Hoth1 & Habs1 & Hcur1).
  pose proof (_xtruncate_empties (fd0 stream) os1 Hrel1) as Hb.
  apply returns_Done in Hb as ([] & os2 & Ht0 & Hrel2 & Hoth0 & Habs0 & Hcur0).
  exists os2. unfold mbind. rewrite Ht1. unfold mret. cbn [fd0 fd1 offset0 offset1 head].
  rewrite E0, Ht0. cbn [_vte_file_stream_swap_fds fd0 fd1 offset0 offset1 head].
  assert (Hemp : forall fd, fd = fd0 stream \/ fd = fd1 stream -> fd <> 0 ->
            (os_files os !! fd = None /\ os_files os2 !! fd = None)
            \/ (is_Some (os_files os !! fd) /\ os_files os2 !! fd = Some [])).
  { intros fd Hfd Hnz.
    destruct (decide (fd = fd0 stream)) as [->|Hne0].
    - specialize (Hcur0 Hnz).
      destruct (decide (fd0 stream = fd1 stream)) as [Heq|Hne1].
      + rewrite <- Heq in *. specialize (Hcur1 Hnz).
        destruct Hcur1 as [[Ha Hb]|[Ha Hb]]; destruct Hcur0 as [[Hc Hd]|[Hc Hd]]; auto;
          exfalso; rewrite Hb in Hc; [destruct Hc|]; discriminate.
      + rewrite (Hoth1 _ Hne1) in Hcur0. exact Hcur0.
    - destruct Hfd as [-> | ->]; [contradiction|].
      rewrite (Hoth0 _ Hne0). apply Hcur1, Hnz. }
  splits; auto.
  - intros fd Hfd Hnz Hopen. destruct (Hemp fd Hfd Hnz) as [[Hn _]|[_ H]]; [|exact H].
    rewrite Hn in Hopen. destruct Hopen; discriminate.
  - intros fd Hn0 Hn1. rewrite (Hoth0 _ Hn0). apply Hoth1, Hn1.
  - intros os3 off len Hfiles Hoff Hlen.
    apply (read_of_empty_current_fails _ offset); auto.
    cbn [fd0]. rewrite Hfiles.
    destruct (Z.eq_dec (fd1 stream) 0) as [Hz|Hnz]; [left; exact Hz | right].
    destruct (Hemp (fd1 stream)) as [[_ H]|[_ H]]; auto.
Qed.

Lemma truncate_below_previous_resets_witness :
  exists os',
    _vte_file_stream_truncate (mkStream 3 4 8 4 12) 2
      (mkOS {[3 := CCCC; 4 := BBBB]} ∅ [] [])
    = Done (mkStream 4 3 2 2 2, os')
    /\ os_files os' !! 3 = Some [] /\ os_files os' !! 4 = Some []
    /\ exists os3, _vte_file_stream_read (mkStream 4 3 2 2 2) 2 1 os' = Done ((false, []), os3).
Proof.
  destruct (truncate_below_previous_resets (mkStream 3 4 8 4 12) 2
              (mkOS {[3 := CCCC; 4 := BBBB]} ∅ [] []))
    as (os' & Hrun & Hemp & _ & Hread).
  - constructor.
  - cbn. lia.
  - cbn. lia.
  - exists os'. split; [exact Hrun|]. split; [|split].
    + refine (Hemp 3 (or_introl eq_refl) _ _); [lia | cbn; eauto].
    + refine (Hemp 4 (or_intror eq_refl) _ _); [lia | cbn; eauto].
    + refine (Hread os' 2 1 eq_refl _ _); [lia | split; reflexivity].
Defined.

(** The case [offset[1] <= offset < offset[0]] of a truncation. *)
Lemma truncate_into_previous_spec stream offset os :
  reliable os ->
  offset1 stream <= offset -> offset < offset0 stream ->
  fd0 stream = 0 \/ fd0 stream <> fd1 stream ->
  returns (_vte_file_stream_truncate stream offset) os (fun stream' os' =>
    stream' = mkStream (fd1 stream) (fd0 stream) (offset1 stream) (offset1 stream) offset
    /\ reliable os'
    /\ os_files os' !! fd1 stream = os_files os !! fd1 stream
    /\ (fd0 stream <> 0 -> is_Some (os_files os !! fd0 stream) ->
        os_files os' !! fd0 stream = Some [])
    /\ (forall fd, fd <> fd0 stream -> os_files os' !! fd = os_files os !! fd)).
Proof.
  intros Hrel H1 H0 Hd. unfold _vte_file_stream_truncate.
  apply Z.ltb_ge in H1 as E1. apply Z.ltb_lt in H0 as E0. rewrite E1.
  apply returns_bind, returns_ret. rewrite E0.
  apply returns_bind, returns_bind.
  eapply returns_mono; [apply (_xtruncate_empties (fd0 stream) os Hrel)|].
  cbv beta. intros [] os1 (Hrel1 & Hoth & Habs & Hcur).
  apply returns_ret, returns_ret.
  cbn [_vte_file_stream_swap_fds fd0 fd1 offset0 offset1 head].
  splits; auto.
  - destruct Hd as [Hz|Hne]; [rewrite (Habs Hz); reflexivity | apply Hoth; auto].
  - intros Hnz Hopen. destruct (Hcur Hnz) as [[Hn _]|[_ H]]; [|exact H].
    rewrite Hn in Hopen. destruct Hopen; discriminate.
Qed.

(** X9: a truncation to an offset inside the previous generation empties
    the current store and exchanges the descriptors, so that the former
    previous store becomes the current one, starting at the old
    [offset[1]]; that store's file is left as it is. *)
Theorem truncate_into_previous_swaps (stream : VteFileStream) (offset : Z) (os : OS) :
  reliable os ->
  offset1 stream <= offset -> offset < offset0 stream ->
  fd0 stream = 0 \/ fd0 stream <> fd1 stream ->
  exists os',
    _vte_file_stream_truncate stream offset os
    = Done (mkStream (fd1 stream) (fd0 stream) (offset1 stream) (offset1 stream) offset, os')
    /\ os_files os' !! fd1 stream = os_files os !! fd1 stream
    /\ (fd0 stream <> 0 -> is_Some (os_files os !! fd0 stream) ->
        os_files os' !! fd0 stream = Some [])
    /\ (forall fd, fd <> fd0 stream -> os_files os' !! fd = os_files os !! fd).
Proof.
  intros Hrel H1 H0 Hd.
  pose proof (truncate_into_previous_spec stream offset os Hrel H1 H0 Hd) as H.
  apply returns_Done in H as (s' & os' & Hrun & -> & _ & Hprev & Hcur & Hoth).
  exists os'. auto.
Qed.

Lemma truncate_into_previous_swaps_witness :
  exists os',
    _vte_file_stream_truncate (mkStream 3 4 8 4 12) 6
      (mkOS {[3 := CCCC; 4 := BBBB]} ∅ [] [])
    = Done (mkStream 4 3 4 4 6, os')
    /\ os_files os' !! 4 = Some BBBB
    /\ os_files os' !! 3 = Some [].
Proof.
  destruct (truncate_into_previous_swaps (mkStream 3 4 8 4 12) 6
              (mkOS {[3 := CCCC; 4 := BBBB]} ∅ [] []))
    as (os' & Hrun & Hprev & Hcur & _).
  - constructor.
  - cbn. lia.
  - cbn. lia.
  - right. cbn. lia.
  - exists os'. split; [exact Hrun|]. split; [exact Hprev|].
    refine (Hcur _ _); [cbn; lia | cbn; eauto].
Defined.

(** X10: after such a truncation the surviving store has not been cut at
    the new [head]: every range it physically holds still reads back, the
    bytes at and after the new [head] included. *)
Theorem truncate_into_previous_keeps_tail_readable
        (stream : VteFileStream) (offset : Z) (os : OS) (f1 : list byte) (off len : Z) :
  reliable os ->
  0 <= offset1 stream <= offset -> offset < offset0 stream ->
  fd0 stream = 0 \/ fd0 stream <> fd1 stream ->
  fd1 stream <> 0 -> os_files os !! fd1 stream = Some f1 ->
  offset1 stream <= off -> 0 <= len -> off + len < gsize_modulus ->
  off - offset1 stream + len <= Z.of_nat (length f1) ->
  exists stream' os' os'',
    _vte_file_stream_truncate stream offset os = Done (stream', os')
    /\ head stream' = offset
    /\ _vte_file_stream_read stream' off len os'
       = Done ((true, take (Z.to_nat len) (drop (Z.to_nat (off - offset1 stream)) f1)), os'').
Proof.
  intros Hrel H1 H0 Hd Hfd1 Hf1 Hoff Hlen Hmax Hphys.
  pose proof (truncate_into_previous_spec stream offset os Hrel (proj2 H1) H0 Hd) as H.
  apply returns_Done in H as (s' & os' & Hrun & -> & Hrel' & Hprev & _ & _).
  rewrite Hf1 in Hprev.
  pose proof (_xpread_reliable (fd1 stream) len (off - offset1 stream) os' f1
                Hfd1 Hrel' Hprev Hlen ltac:(lia) ltac:(lia)) as Hr.
  cbv zeta in Hr. apply returns_Done in Hr as (res & os'' & Hread & -> & _).
  eexists _, os', os''. split; [exact Hrun|]. split; [reflexivity|].
  unfold _vte_file_stream_read, read_current. cbn [fd0 fd1 offset0 offset1 head].
  assert (Hlt : (off <? offset1 stream) = false) by (apply Z.ltb_ge; lia).
  rewrite Hlt. rewrite (gsize_sub_small off) by lia.
  unfold mbind. rewrite Hread. rewrite length_take, length_drop.
  replace (Z.of_nat (Z.to_nat len `min` (length f1 - Z.to_nat (off - offset1 stream))))
    with len by lia.
  rewrite gsize_sub_diag. reflexivity.
Qed.

Lemma truncate_into_previous_keeps_tail_readable_witness :
  exists stream' os' os'',
    _vte_file_stream_truncate (mkStream 3 4 8 4 12) 6
      (mkOS {[3 := CCCC; 4 := BBBB]} ∅ [] []) = Done (stream', os')
    /\ head stream' = 6
    /\ _vte_file_stream_read stream' 6 2 os' = Done ((true, [x42; x42]), os'').
Proof.
  refine (truncate_into_previous_keeps_tail_readable (mkStream 3 4 8 4 12) 6
            (mkOS {[3 := CCCC; 4 := BBBB]} ∅ [] []) BBBB 6 2 _ _ _ _ _ _ _ _ _ _).
  - constructor.
  - cbn. lia.
  - cbn. lia.
  - right. cbn. lia.
  - cbn. lia.
  - reflexivity.
  - cbn. lia.
  - lia.
  - reflexivity.
  - cbn. lia.
Defined.

(** ** Truncation within and beyond the current generation *)

Lemma truncate_current_spec stream offset os f :
  reliable os ->
  0 <= offset1 stream <= offset0 stream -> offset0 stream <= offset < gsize_modulus ->
  fd0 stream <> 0 -> os_files os !! fd0 stream = Some f ->
  returns (_vte_file_stream_truncate stream offset) os (fun stream' os' =>
    stream' = mkStream (fd0 stream) (fd1 stream) (offset0 stream) (offset1 stream) offset
    /\ reliable os'
    /\ os_files os'
       = <[fd0 stream := resize (Z.to_nat (offset - offset0 stream)) x00 f]> (os_files os)).
Proof.
  intros Hrel Hinv Hoff Hfd Hf. unfold _vte_file_stream_truncate.
  assert (E1 : (offset <? offset1 stream) = false) by (apply Z.ltb_ge; lia).
  assert (E0 : (offset <? offset0 stream) = false) by (apply Z.ltb_ge; lia).
  rewrite E1. apply returns_bind, returns_ret. rewrite E0.
  apply returns_bind, returns_bind. rewrite gsize_sub_small by lia.
  eapply returns_mono;
    [apply (_xtruncate_reliable (fd0 stream) _ os Hfd (reliable_proceeds _ Hrel))|].
  cbv beta. intros [] os' [Hfr Hcase]. apply returns_ret, returns_ret.
  splits; auto.
  - eapply reliable_frame; eassumption.
  - destruct Hcase as [[Hn _]|(f' & Hf' & He)]; congruence.
Qed.



(** An append to an existing store on a reliable system. *)
Lemma append_reliable stream data os f :
  reliable os -> fd0 stream <> 0 -> os_files os !! fd0 stream = Some f ->
  gsize_sub (head stream) (offset0 stream) + Z.of_nat (length data) < gsize_modulus ->
  returns (_vte_file_stream_append stream data (Z.of_nat (length data))) os
    (fun stream' os' =>
       stream' = mkStream (fd0 stream) (fd1 stream) (offset0 stream) (offset1 stream)
                          (gsize_add (head stream) (Z.of_nat (length data)))
       /\ reliable os'
       /\ os_files os'
          = <[fd0 stream := file_write f (gsize_sub (head stream) (offset0 stream)) data]>
              (os_files os)).
Proof.
  intros Hrel Hfd Hf Hmax. unfold _vte_file_stream_append.
  apply returns_bind. eapply returns_mono; [apply ensure_fd0_spec|]. cbv beta.
  intros s1 os1 (_ & _ & _ & _ & _ & _ & Hsame & _).
  destruct (Hsame Hfd) as [-> ->].
  pose proof (gsize_wrap_range (head stream - offset0 stream)) as [Hpos _].
  apply returns_bind. eapply returns_mono.
  - apply (_xpwrite_reliable (fd0 stream) data _ _ os f Hfd Hrel Hf eq_refl Hpos Hmax).
  - cbv beta. intros [] os2 [Hfiles Hfr]. apply returns_ret.
    splits; auto. eapply reliable_frame; eassumption.
Qed.

(** X12: a truncation to [k] inside (or past) the current generation
    followed by an append of [data] leaves [head] at [k + len], the current
    store holding its bytes before [k] followed by [data], and reading
    [len] bytes at [k] returns [data]. *)
Theorem truncate_then_append_reads_back (stream : VteFileStream) (k : Z) (data : list byte)
                                        (os : OS) (f : list byte) :
  reliable os ->
  0 <= offset1 stream <= offset0 stream -> offset0 stream <= k ->
  k + Z.of_nat (length data) < gsize_modulus ->
  fd0 stream <> 0 -> os_files os !! fd0 stream = Some f ->
  exists stream1 os1 stream2 os2 os3,
    _vte_file_stream_truncate stream k os = Done (stream1, os1)
    /\ _vte_file_stream_append stream1 data (Z.of_nat (length data)) os1 = Done (stream2, os2)
    /\ head stream2 = k + Z.of_nat (length data)
    /\ os_files os2 !! fd0 stream
       = Some (resize (Z.to_nat (k - offset0 stream)) x00 f ++ data)
    /\ _vte_file_stream_read stream2 k (Z.of_nat (length data)) os2
       = Done ((true, data), os3).
Proof.
  intros Hrel Hinv Hk Hmax Hfd Hf.
  pose proof (truncate_current_spec stream k os f Hrel Hinv ltac:(lia) Hfd Hf) as H.
  apply returns_Done in H as (s1 & os1 & Hrun1 & -> & Hrel1 & Hfiles1).
  set (n := k - offset0 stream) in *.
  set (s1 := mkStream (fd0 stream) (fd1 stream) (offset0 stream) (offset1 stream) k) in *.
  assert (Hf1 : os_files os1 !! fd0 s1 = Some (resize (Z.to_nat n) x00 f)).
  { rewrite Hfiles1. apply lookup_insert_eq. }
  assert (Hpos : gsize_sub (head s1) (offset0 s1) = n).
  { unfold s1. cbn. apply gsize_sub_small. lia. }
  pose proof (append_reliable s1 data os1 _ Hrel1 Hfd Hf1) as H2.
  rewrite Hpos in H2. specialize (H2 ltac:(lia)).
  apply returns_Done in H2 as (s2 & os2 & Hrun2 & -> & Hrel2 & Hfiles2).
  assert (Hfile : file_write (resize (Z.to_nat n) x00 f) n data
                  = resize (Z.to_nat n) x00 f ++ data).
  { rewrite <- file_write_end. f_equal. rewrite length_resize. lia. }
  rewrite Hfile in Hfiles2.
  assert (Hf2 : os_files os2 !! fd0 stream = Some (resize (Z.to_nat n) x00 f ++ data)).
  { rewrite Hfiles2. apply lookup_insert_eq. }
  pose proof (_xpread_reliable (fd0 stream) (Z.of_nat (length data)) n os2 _ Hfd Hrel2 Hf2
                ltac:(lia) ltac:(lia) ltac:(lia)) as Hr.
  cbv zeta in Hr. rewrite drop_app_length' in Hr by (rewrite length_resize; reflexivity).
  rewrite Nat2Z.id, firstn_all in Hr.
  apply returns_Done in Hr as (res & os3 & Hread & -> & _).
  eexists s1, os1, _, os2, os3. split; [exact Hrun1|]. split; [exact Hrun2|].
  subst s1. cbn [fd0 fd1 offset0 offset1 head]. split; [apply gsize_add_small; lia|].
  split; [exact Hf2|].
  unfold _vte_file_stream_read, read_current. cbn [fd0 fd1 offset0 offset1 head].
  assert (E1 : (k <? offset1 stream) = false) by (apply Z.ltb_ge; lia).
  assert (E0 : (k <? offset0 stream) = false) by (apply Z.ltb_ge; lia).
  rewrite E1, E0, (gsize_sub_small k) by lia. fold n.
  unfold mbind. rewrite Hread, gsize_sub_diag. reflexivity.
Qed.

Lemma truncate_then_append_reads_back_witness :
  exists stream1 os1 stream2 os2 os3,
    _vte_file_stream_truncate (mkStream 3 0 4 4 8) 6
      (mkOS {[3 := [x41; x42; x43; x44]]} ∅ [] []) = Done (stream1, os1)
    /\ _vte_file_stream_append stream1 [x45; x46; x47] 3 os1 = Done (stream2, os2)
    /\ head stream2 = 9
    /\ os_files os2 !! 3 = Some [x41; x42; x45; x46; x47]
    /\ _vte_file_stream_read stream2 6 3 os2 = Done ((true, [x45; x46; x47]), os3).
Proof.
  refine (truncate_then_append_reads_back (mkStream 3 0 4 4 8) 6 [x45; x46; x47]
            (mkOS {[3 := [x41; x42; x43; x44]]} ∅ [] []) [x41; x42; x43; x44]
            _ _ _ _ _ _).
  - constructor.
  - cbn. lia.
  - cbn. lia.
  - reflexivity.
  - cbn. lia.
  - reflexivity.
Defined.

(** ** Export *)

Lemma sys_lseek_reliable fd p os :
  reliable os ->
  returns (sys_lseek fd p) os (fun _ os' =>
    reliable os' /\ os_files os' = os_files os
    /\ (is_Some (os_files os !! fd) -> os_pos os' !! fd = Some p)).
Proof.
  intros Hrel. pose proof (reliable_proceeds _ Hrel) as Hp.
  pose proof Hrel as Htail. unfold reliable in Htail.
  unfold returns, sys_lseek, put_pos. os_cases os;
    destruct (files !! fd) eqn:Hf; cbn; unfold reliable; cbn; splits; auto;
    try (intros [? ?]; discriminate); try (intros _; apply lookup_insert_eq);
    inversion Htail; auto.
Qed.

(** Without a failure the copy loop delivers all that is left. *)
Lemma splice_chunks_reliable script rest :
  Forall transfers script ->
  exists sc, splice_chunks script rest = (None, rest, sc) /\ Forall transfers sc.
Proof.
  revert rest. induction script as [|i script IH]; intros rest Hrel.
  - exists []. split; [reflexivity | constructor].
  - inversion Hrel as [|? ? Hi Htail]; subst.
    destruct i as [|e|[|n]]; cbn in Hi; try contradiction.
    + exists script. split; [reflexivity | assumption].
    + cbn [splice_chunks]. destruct (drop (S n) rest) as [|b rest'] eqn:Hd.
      * exists script. split; [|assumption].
        rewrite take_ge; [reflexivity|].
        apply (f_equal length) in Hd. rewrite length_drop in Hd. cbn in Hd. lia.
      * destruct (IH (b :: rest') Htail) as (sc & Hc & Hsc).
        rewrite Hc. exists sc. split; [|assumption].
        rewrite <- Hd, take_drop. reflexivity.
Qed.

Lemma sys_splice_reliable fd output os f p :
  reliable os -> os_files os !! fd = Some f -> os_pos os !! fd = Some p ->
  returns (sys_splice fd output) os (fun res os' =>
    res = (true, output ++ drop (Z.to_nat p) f)
    /\ reliable os' /\ os_files os' = os_files os).
Proof.
  intros Hrel Hf Hpos.
  destruct (splice_chunks_reliable (os_script os) (drop (Z.to_nat p) f) Hrel)
    as (sc & Hc & Hsc).
  unfold returns.
  rewrite (sys_splice_open fd output os f None (drop (Z.to_nat p) f) sc Hf);
    [|rewrite Hpos; exact Hc].
  splits; auto.
Qed.

(** Seek to [p], then splice: the store from [p] on goes to the sink. *)
Lemma export_store fd p output os f :
  reliable os -> store_of os fd = Some f ->
  returns (sys_lseek fd p ;; _xwrite_contents fd output) os (fun res os' =>
    res = (true, output ++ drop (Z.to_nat p) f)
    /\ reliable os' /\ os_files os' = os_files os).
Proof.
  intros Hrel Hst. apply returns_bind.
  eapply returns_mono; [apply (sys_lseek_reliable fd p os Hrel)|].
  cbv beta. intros r os1 (Hrel1 & Hfiles1 & Hpos1).
  unfold store_of in Hst. unfold _xwrite_contents.
  destruct (fd =? 0).
  - injection Hst as <-. apply returns_ret. rewrite drop_nil, app_nil_r. auto.
  - eapply returns_mono.
    + apply (sys_splice_reliable fd output os1 f p Hrel1).
      * rewrite Hfiles1. exact Hst.
      * apply Hpos1. rewrite Hst. eauto.
    + cbv beta. intros res os' (Hres & Hrel' & Hfiles'). splits; auto. congruence.
Qed.

(** The bytes an export from [offset] sends to the sink. *)
Lemma write_contents_reliable stream output offset os f1 f0 :
  reliable os ->
  store_of os (fd1 stream) = Some f1 -> store_of os (fd0 stream) = Some f0 ->
  0 <= offset1 stream <= offset -> 0 <= offset0 stream -> offset < gsize_modulus ->
  returns (_vte_file_stream_write_contents stream output offset) os (fun res os' =>
    res = (true,
           output ++ (if offset <? offset0 stream
                      then drop (Z.to_nat (offset - offset1 stream)) f1 ++ f0
                      else drop (Z.to_nat (offset - offset0 stream)) f0))
    /\ reliable os' /\ os_files os' = os_files os).
Proof.
  intros Hrel Hs1 Hs0 Ho1 Ho0 Hmax. unfold _vte_file_stream_write_contents.
  assert (E1 : (offset <? offset1 stream) = false) by (apply Z.ltb_ge; lia).
  rewrite E1.
  destruct (Z.ltb_spec offset (offset0 stream)) as [Hlt|Hge].
  - rewrite (gsize_sub_small offset) by lia.
    pose proof (export_store (fd1 stream) (offset - offset1 stream) output os f1 Hrel Hs1)
      as Hprev.
    apply returns_Done in Hprev as (res & os1 & Hrun1 & -> & Hrel1 & Hfiles1).
    apply mbind_Done in Hrun1 as (r & osl & Hseek & Hsplice).
    apply returns_bind. eapply returns_eq; [exact Hseek|]. cbv beta.
    apply returns_bind. eapply returns_eq; [exact Hsplice|]. cbv beta iota. cbn [negb].
    rewrite gsize_sub_diag.
    eapply returns_mono.
    + apply (export_store (fd0 stream) 0 _ os1 f0 Hrel1).
      unfold store_of in *. rewrite Hfiles1. exact Hs0.
    + cbv beta. intros res os' (-> & Hrel' & Hfiles'). change (Z.to_nat 0) with 0%nat.
      rewrite drop_0, <- app_assoc. splits; auto. congruence.
  - rewrite (gsize_sub_small offset) by lia.
    apply (export_store (fd0 stream) (offset - offset0 stream) output os f0 Hrel Hs0).
Qed.

(** X13: on a reliable system an export from an offset not below
    [offset[1]] returns TRUE and appends to the sink the previous store
    from that offset on followed by the whole current store, or, when the
    offset lies in the current generation, the current store from that
    offset on; an absent store contributes nothing, and no file changes. *)
Theorem write_contents_exports_retained (stream : VteFileStream) (output : list byte)
                                        (offset : Z) (os : OS) (f1 f0 : list byte) :
  reliable os ->
  store_of os (fd1 stream) = Some f1 -> store_of os (fd0 stream) = Some f0 ->
  0 <= offset1 stream <= offset -> 0 <= offset0 stream -> offset < gsize_modulus ->
  exists os',
    _vte_file_stream_write_contents stream output offset os
    = Done ((true,
             output ++ (if offset <? offset0 stream
                        then drop (Z.to_nat (offset - offset1 stream)) f1 ++ f0
                        else drop (Z.to_nat (offset - offset0 stream)) f0)), os')
    /\ os_files os' = os_files os.
Proof.
  intros Hrel Hs1 Hs0 Ho1 Ho0 Hmax.
  pose proof (write_contents_reliable stream output offset os f1 f0 Hrel Hs1 Hs0 Ho1 Ho0 Hmax)
    as H.
  apply returns_Done in H as (res & os' & Hrun & -> & _ & Hfiles).
  exists os'. auto.
Qed.

Lemma write_contents_exports_retained_witness :
  exists os',
    _vte_file_stream_write_contents (mkStream 3 4 8 4 12) [x3e] 6
      (mkOS {[3 := CCCC; 4 := BBBB]} ∅ [] [])
    = Done ((true, [x3e; x42; x42; x43; x43; x43; x43]), os')
    /\ os_files os' = {[3 := CCCC; 4 := BBBB]}.
Proof.
  refine (write_contents_exports_retained (mkStream 3 4 8 4 12) [x3e] 6
            (mkOS {[3 := CCCC; 4 := BBBB]} ∅ [] []) BBBB CCCC _ _ _ _ _ _).
  - constructor.
  - reflexivity.
  - reflexivity.
  - cbn. lia.
  - cbn. lia.
  - reflexivity.
Defined.

(** X14: exporting twice from the same offset with nothing in between
    sends the same bytes to the sink both times: each export seeks before
    it streams. *)
Theorem write_contents_twice_same_bytes (stream : VteFileStream) (out1 out2 : list byte)
                                        (offset : Z) (os : OS) (f1 f0 : list byte) :
  reliable os ->
  store_of os (fd1 stream) = Some f1 -> store_of os (fd0 stream) = Some f0 ->
  0 <= offset1 stream <= offset -> 0 <= offset0 stream -> offset < gsize_modulus ->
  exists bytes os1 os2,
    _vte_file_stream_write_contents stream out1 offset os = Done ((true, out1 ++ bytes), os1)
    /\ _vte_file_stream_write_contents stream out2 offset os1
       = Done ((true, out2 ++ bytes), os2).
Proof.
  intros Hrel Hs1 Hs0 Ho1 Ho0 Hmax.
  pose proof (write_contents_reliable stream out1 offset os f1 f0 Hrel Hs1 Hs0 Ho1 Ho0 Hmax)
    as H.
  apply returns_Done in H as (res & os1 & Hrun1 & -> & Hrel1 & Hfiles1).
  assert (Hs1' : store_of os1 (fd1 stream) = Some f1)
    by (unfold store_of in *; rewrite Hfiles1; exact Hs1).
  assert (Hs0' : store_of os1 (fd0 stream) = Some f0)
    by (unfold store_of in *; rewrite Hfiles1; exact Hs0).
  pose proof (write_contents_reliable stream out2 offset os1 f1 f0 Hrel1 Hs1' Hs0' Ho1 Ho0 Hmax)
    as H2.
  apply returns_Done in H2 as (res2 & os2 & Hrun2 & -> & _ & _).
  eexists _, os1, os2. split; [exact Hrun1 | exact Hrun2].
Qed.

Lemma write_contents_twice_same_bytes_witness :
  exists bytes os1 os2,
    _vte_file_stream_write_contents (mkStream 3 4 8 4 12) [] 6
      (mkOS {[3 := CCCC; 4 := BBBB]} ∅ [] []) = Done ((true, [] ++ bytes), os1)
    /\ _vte_file_stream_write_contents (mkStream 3 4 8 4 12) [x3e] 6 os1
       = Done ((true, [x3e] ++ bytes), os2).
Proof.
  refine (write_contents_twice_same_bytes (mkStream 3 4 8 4 12) [] [x3e] 6
            (mkOS {[3 := CCCC; 4 := BBBB]} ∅ [] []) BBBB CCCC _ _ _ _ _ _).
  - constructor.
  - reflexivity.
  - reflexivity.
  - cbn. lia.
  - cbn. lia.
  - reflexivity.
Defined.

Lemma sys_lseek_any fd p os :
  returns (sys_lseek fd p) os (fun _ os' =>
    os_script os' = tail (os_script os) /\ os_files os' = os_files os
    /\ length (os_log os') = S (length (os_log os))).
Proof.
  unfold returns, sys_lseek, put_pos. os_cases os;
    try destruct (files !! fd); cbn; rewrite length_app; cbn; splits; auto; lia.
Qed.

Lemma sys_lseek_proceeds fd p os f :
  proceeds os -> os_files os !! fd = Some f ->
  sys_lseek fd p os
  = Done (RetOk p, mkOS (os_files os) (<[fd := p]> (os_pos os)) (tail (os_script os))
                        (os_log os ++ [(SysLseek fd p, RetOk p)])).
Proof.
  intros Hp Hf. unfold sys_lseek, put_pos. os_cases os; rewrite Hf; reflexivity.
Qed.

(** Chunks of [S n] bytes for [n] in [ns], then a failure that strikes
    before all is delivered: the chunks copied so far stay delivered. *)
Lemma splice_chunks_partial ns e sc rest :
  (sum_list (S <$> ns) < length rest)%nat ->
  splice_chunks (((fun n => Short (S n)) <$> ns) ++ Fail e :: sc) rest
  = (Some e, take (sum_list (S <$> ns)) rest, sc).
Proof.
  revert rest. induction ns as [|n ns IH]; intros rest Hlen.
  - reflexivity.
  - cbn [fmap list_fmap app sum_list sum_list_with] in *. unfold id in *.
    cbn [splice_chunks]. destruct (drop (S n) rest) as [|b rest'] eqn:Hd.
    + apply (f_equal length) in Hd. rewrite length_drop in Hd. cbn in Hd. lia.
    + rewrite <- Hd. rewrite IH by (rewrite length_drop; lia).
      rewrite take_take_drop. reflexivity.
Qed.

(** X15: when the sink fails while the previous store is exported, after
    chunks of [S n] bytes for [n] in [ns] have gone through and before the
    store is exhausted, the export returns FALSE at once: the chunks that
    were delivered stay in the sink, behind what it held, and the current
    store is neither sought nor streamed (two calls in all, no file
    changed). *)
Theorem write_contents_stops_at_sink_failure (stream : VteFileStream) (output : list byte)
                                             (offset : Z) (os : OS) (f1 : list byte)
                                             (i : inject) (ns : list nat)
                                             (e : errno) (sc : list inject) :
  0 <= offset1 stream <= offset -> offset < offset0 stream -> offset < gsize_modulus ->
  fd1 stream <> 0 -> os_files os !! fd1 stream = Some f1 ->
  os_script os = i :: ((fun n => Short (S n)) <$> ns) ++ Fail e :: sc ->
  proceeds os ->
  (sum_list (S <$> ns) < length (drop (Z.to_nat (offset - offset1 stream)) f1))%nat ->
  exists os',
    _vte_file_stream_write_contents stream output offset os
    = Done ((false,
             output ++ take (sum_list (S <$> ns))
                            (drop (Z.to_nat (offset - offset1 stream)) f1)), os')
    /\ os_script os' = sc
    /\ os_files os' = os_files os
    /\ length (os_log os') = S (S (length (os_log os))).
Proof.
  intros H1 H0 Hmax Hfd Hf1 Hs Hp Hlen. unfold _vte_file_stream_write_contents.
  assert (E1 : (offset <? offset1 stream) = false) by (apply Z.ltb_ge; lia).
  assert (E0 : (offset <? offset0 stream) = true) by (apply Z.ltb_lt; lia).
  rewrite E1, E0. unfold _xwrite_contents.
  apply Z.eqb_neq in Hfd. rewrite Hfd.
  rewrite (gsize_sub_small offset) by lia.
  set (p := offset - offset1 stream) in *.
  unfold mbind at 1. rewrite (sys_lseek_proceeds (fd1 stream) p os f1 Hp Hf1).
  rewrite Hs. cbn [tail].
  unfold mbind at 1.
  erewrite (sys_splice_open (fd1 stream) output _ f1 (Some e)); cycle 1.
  - exact Hf1.
  - cbn [os_pos os_script]. rewrite lookup_insert_eq. cbn [default].
    apply splice_chunks_partial. exact Hlen.
  - cbn [negb]. eexists. split; [reflexivity|].
    cbn [os_script os_files os_log]. rewrite !length_app. cbn [length].
    splits; auto. lia.
Qed.

Lemma write_contents_stops_at_sink_failure_witness :
  exists os',
    _vte_file_stream_write_contents (mkStream 3 4 8 4 12) [x3e] 5
      (mkOS {[3 := CCCC; 4 := BBBB]} ∅ [Normal; Short 2; Fail EIO; Normal] [])
    = Done ((false, [x3e; x42; x42]), os')
    /\ os_script os' = [Normal]
    /\ os_files os' = {[3 := CCCC; 4 := BBBB]}
    /\ length (os_log os') = 2%nat.
Proof.
  refine (write_contents_stops_at_sink_failure (mkStream 3 4 8 4 12) [x3e] 5
            (mkOS {[3 := CCCC; 4 := BBBB]} ∅ [Normal; Short 2; Fail EIO; Normal] [])
            BBBB Normal [1%nat] EIO [Normal] _ _ _ _ _ _ _ _).
  - cbn. lia.
  - cbn. lia.
  - reflexivity.
  - cbn. lia.
  - reflexivity.
  - reflexivity.
  - exact I.
  - vm_compute. lia.
Defined.

(** ** Rotation, once and twice *)

(** X16: one rotation keeps the generation that was current: after it,
    every range of that generation that its store holds reads back
    unchanged, now from the previous store. *)
Theorem rotation_keeps_current_generation_readable
        (stream : VteFileStream) (os : OS) (f0 : list byte) (off len : Z) :
  reliable os ->
  fd0 stream <> 0 -> fd0 stream <> fd1 stream ->
  os_files os !! fd0 stream = Some f0 ->
  0 <= offset0 stream <= off -> 0 <= len ->
  off + len <= head stream -> head stream < gsize_modulus ->
  off - offset0 stream + len <= Z.of_nat (length f0) ->
  exists stream' os' os'',
    _vte_file_stream_new_page stream os = Done (stream', os')
    /\ offset1 stream' = offset0 stream /\ offset0 stream' = head stream
    /\ _vte_file_stream_read stream' off len os'
       = Done ((true, take (Z.to_nat len) (drop (Z.to_nat (off - offset0 stream)) f0)), os'').
Proof.
  intros Hrel Hfd Hd Hf0 Hoff Hlen Hend Hmax Hphys.
  unfold _vte_file_stream_new_page, _vte_file_stream_swap_fds.
  cbn [fd0 fd1 offset0 offset1 head].
  pose proof (_xtruncate_empties (fd1 stream) os Hrel) as Ht.
  apply returns_Done in Ht as ([] & os' & Ht & Hrel' & Hoth & _ & _).
  assert (Hf0' : os_files os' !! fd0 stream = Some f0) by (rewrite Hoth; auto).
  exists (mkStream (fd1 stream) (fd0 stream) (head stream) (offset0 stream) (head stream)), os'.
  unfold mbind at 1. rewrite Ht. unfold mret at 1.
  unfold _vte_file_stream_read, read_current. cbn [fd0 fd1 offset0 offset1 head].
  assert (E1 : (off <? offset0 stream) = false) by (apply Z.ltb_ge; lia).
  rewrite E1.
  destruct (Z.ltb_spec off (head stream)) as [Hlt|Hge].
  - pose proof (_xpread_reliable (fd0 stream) len (off - offset0 stream) os' f0
                  Hfd Hrel' Hf0' Hlen ltac:(lia) ltac:(lia)) as Hr.
    cbv zeta in Hr. apply returns_Done in Hr as (res & os'' & Hread & -> & _).
    exists os''. splits; auto.
    rewrite (gsize_sub_small off) by lia. unfold mbind. rewrite Hread.
    rewrite length_take, length_drop.
    replace (Z.of_nat (Z.to_nat len `min` (length f0 - Z.to_nat (off - offset0 stream))))
      with len by lia.
    rewrite gsize_sub_diag. reflexivity.
  - assert (len = 0) as -> by lia.
    exists os'. splits; auto.
Qed.

Lemma rotation_keeps_current_generation_readable_witness :
  exists stream' os' os'',
    _vte_file_stream_new_page (mkStream 3 4 4 0 8)
      (mkOS {[3 := BBBB; 4 := AAAA]} ∅ [] []) = Done (stream', os')
    /\ offset1 stream' = 4 /\ offset0 stream' = 8
    /\ _vte_file_stream_read stream' 5 3 os' = Done ((true, [x42; x42; x42]), os'').
Proof.
  refine (rotation_keeps_current_generation_readable (mkStream 3 4 4 0 8)
            (mkOS {[3 := BBBB; 4 := AAAA]} ∅ [] []) BBBB 5 3 _ _ _ _ _ _ _ _ _).
  - constructor.
  - cbn. lia.
  - cbn. lia.
  - reflexivity.
  - cbn. lia.
  - lia.
  - cbn. lia.
  - reflexivity.
  - cbn. lia.
Defined.

Lemma empties_both fdA fdB os :
  reliable os ->
  returns (_xtruncate fdA 0 ;; _xtruncate fdB 0) os (fun _ os' =>
    reliable os'
    /\ (forall fd, fd = fdA \/ fd = fdB -> fd <> 0 ->
          (os_files os !! fd = None /\ os_files os' !! fd = None)
          \/ (is_Some (os_files os !! fd) /\ os_files os' !! fd = Some []))
    /\ (forall fd, fd <> fdA -> fd <> fdB -> os_files os' !! fd = os_files os !! fd)).
Proof.
  intros Hrel. apply returns_bind.
  eapply returns_mono; [apply (_xtruncate_empties fdA os Hrel)|].
  cbv beta. intros [] os1 (Hrel1 & Hoth1 & _ & Hcur1).
  eapply returns_mono; [apply (_xtruncate_empties fdB os1 Hrel1)|].
  cbv beta. intros [] os2 (Hrel2 & Hoth2 & _ & Hcur2).
  splits; auto.
  - intros fd Hfd Hnz.
    destruct (decide (fd = fdB)) as [->|HneB].
    + specialize (Hcur2 Hnz).
      destruct (decide (fdB = fdA)) as [Heq|HneA].
      * rewrite Heq in *. specialize (Hcur1 Hnz).
        destruct Hcur1 as [[Ha Hb]|[Ha Hb]]; destruct Hcur2 as [[Hc Hd]|[Hc Hd]]; auto;
          exfalso; rewrite Hb in Hc; [destruct Hc|]; discriminate.
      * rewrite (Hoth1 _ HneA) in Hcur2. exact Hcur2.
    + destruct Hfd as [-> | ->]; [|contradiction].
      rewrite (Hoth2 _ HneB). apply Hcur1, Hnz.
  - intros fd HA HB. rewrite (Hoth2 _ HB). apply Hoth1, HA.
Qed.

(** X17: two rotations with no append in between put the descriptors back
    in place, set both generation offsets to [head], empty both stores, and
    make every read of at least one byte fail. *)
Theorem two_rotations_discard_everything (stream : VteFileStream) (os : OS) :
  reliable os ->
  exists stream1 os1 os2,
    _vte_file_stream_new_page stream os = Done (stream1, os1)
    /\ _vte_file_stream_new_page stream1 os1
       = Done (mkStream (fd0 stream) (fd1 stream) (head stream) (head stream) (head stream),
               os2)
    /\ (forall fd, fd = fd0 stream \/ fd = fd1 stream -> fd <> 0 ->
          is_Some (os_files os !! fd) -> os_files os2 !! fd = Some [])
    /\ (forall os3 off len,
          os_files os3 = os_files os2 -> 0 < len < gsize_modulus ->
          exists buf os4,
            _vte_file_stream_read
              (mkStream (fd0 stream) (fd1 stream) (head stream) (head stream) (head stream))
              off len os3 = Done ((false, buf), os4)).
Proof.
  intros Hrel.
  pose proof (empties_both (fd1 stream) (fd0 stream) os Hrel) as H.
  apply returns_Done in H as ([] & os2 & Hrun & Hrel2 & Hemp & _).
  apply mbind_Done in Hrun as ([] & os1 & Ht1 & Ht0).
  exists (mkStream (fd1 stream) (fd0 stream) (head stream) (offset0 stream) (head stream)),
    os1, os2.
  unfold _vte_file_stream_new_page, _vte_file_stream_swap_fds.
  cbn [fd0 fd1 offset0 offset1 head].
  unfold mbind. rewrite Ht1, Ht0. unfold mret.
  split; [reflexivity|]. split; [reflexivity|]. split.
  - intros fd Hfd Hnz Hopen.
    destruct (Hemp fd) as [[Hn _]|[_ He]]; [tauto | exact Hnz | | exact He].
    rewrite Hn in Hopen. destruct Hopen; discriminate.
  - intros os3 off len Hfiles Hlen.
    destruct (Z.lt_ge_cases off (head stream)) as [Hlt|Hge].
    + exists [], os3. unfold _vte_file_stream_read. cbn [offset1].
      apply Z.ltb_lt in Hlt. rewrite Hlt. reflexivity.
    + destruct (read_of_empty_current_fails
                  (mkStream (fd0 stream) (fd1 stream) (head stream) (head stream) (head stream))
                  (head stream) os3 off len) as (os4 & Hread); auto.
      * cbn [fd0]. rewrite Hfiles.
        destruct (Z.eq_dec (fd0 stream) 0) as [Hz|Hnz]; [left; exact Hz | right].
        destruct (Hemp (fd0 stream)) as [[_ H]|[_ H]]; auto.
      * eauto.
Qed.

Lemma two_rotations_discard_everything_witness :
  exists stream1 os1 os2,
    _vte_file_stream_new_page (mkStream 3 4 4 0 8)
      (mkOS {[3 := BBBB; 4 := AAAA]} ∅ [] []) = Done (stream1, os1)
    /\ _vte_file_stream_new_page stream1 os1 = Done (mkStream 3 4 8 8 8, os2)
    /\ os_files os2 !! 3 = Some [] /\ os_files os2 !! 4 = Some []
    /\ exists buf os4, _vte_file_stream_read (mkStream 3 4 8 8 8) 4 4 os2
                       = Done ((false, buf), os4).
Proof.
  destruct (two_rotations_discard_everything (mkStream 3 4 4 0 8)
              (mkOS {[3 := BBBB; 4 := AAAA]} ∅ [] []))
    as (s1 & os1 & os2 & H1 & H2 & Hemp & Hread).
  - constructor.
  - exists s1, os1, os2. split; [exact H1|]. split; [exact H2|]. split; [|split].
    + refine (Hemp 3 (or_introl eq_refl) _ _); [lia | cbn; eauto].
    + refine (Hemp 4 (or_intror eq_refl) _ _); [lia | cbn; eauto].
    + refine (Hread os2 4 4 eq_refl _). split; reflexivity.
Defined.

(** ** Appends and [head] *)

Lemma append_all_head ds : forall stream os stream' os',
  is_gsize (head stream) ->
  append_all stream ds os = Done (stream', os') ->
  head stream' = gsize_wrap (head stream + total_length ds)
  /\ offset0 stream' = offset0 stream /\ offset1 stream' = offset1 stream.
Proof.
  unfold total_length.
  induction ds as [|d ds IH]; intros stream os stream' os' Hh Hrun; cbn [append_all] in Hrun.
  - injection Hrun as <- _. cbn. rewrite Z.add_0_r, gsize_wrap_small by exact Hh. auto.
  - apply mbind_Done in Hrun as (s1 & os1 & Ha & Hrest).
    apply append_fields in Ha as (E0 & E1 & Eh).
    apply IH in Hrest as (Hh' & H0' & H1'); [|rewrite Eh; apply gsize_wrap_range].
    rewrite Hh', H0', H1', Eh. splits; auto.
    cbn [concat]. rewrite length_app, Nat2Z.inj_add.
    unfold gsize_add, gsize_wrap. rewrite Zplus_mod_idemp_l. f_equal. lia.
Qed.

(** X18: after any sequence of appends that returns, under any script,
    [head ()] is the [head] it started from plus the total length appended,
    modulo the [gsize] range, whatever was stored; the generation offsets
    have not moved. *)
Theorem appends_advance_head_by_total (stream : VteFileStream) (ds : list (list byte))
                                      (os : OS) (stream' : VteFileStream) (os' : OS) :
  is_gsize (head stream) ->
  append_all stream ds os = Done (stream', os') ->
  _vte_file_stream_head stream' = gsize_wrap (head stream + total_length ds)
  /\ offset0 stream' = offset0 stream /\ offset1 stream' = offset1 stream.
Proof.
  intros Hh Hrun. exact (append_all_head ds stream os stream' os' Hh Hrun).
Qed.

Lemma appends_advance_head_by_total_witness :
  _vte_file_stream_head (mkStream 3 0 5 5 8)
  = gsize_wrap (5 + total_length [[x41; x42]; [x43]])
  /\ offset0 (mkStream 3 0 5 5 8) = 5 /\ offset1 (mkStream 3 0 5 5 8) = 5.
Proof.
  refine (appends_advance_head_by_total (mkStream 3 0 5 5 5) [[x41; x42]; [x43]]
            (mkOS {[3 := []]} ∅ [Fail ENOSPC; Short 0] []) (mkStream 3 0 5 5 8)
            (mkOS {[3 := []]} ∅ []
               [(SysPwrite 3 [x41; x42] 2 0, RetErr ENOSPC);
                (SysPwrite 3 [x43] 1 2, RetOk 0)]) _ _).
  - split; [cbn; lia | reflexivity].
  - vm_compute. reflexivity.
Defined.

(** ** Descriptors *)

(** X19: in every state reached from a new stream, each of the two
    descriptors is 0 or open, and the two are different unless 0: the store
    a rotation or a truncation empties is never the one it keeps. *)
Theorem reachable_descriptors_open_and_distinct
        (allowed : op -> VteFileStream -> Prop) (stream : VteFileStream) (os : OS) :
  reachable allowed stream os ->
  (fd0 stream = 0 \/ is_Some (os_files os !! fd0 stream))
  /\ (fd1 stream = 0 \/ is_Some (os_files os !! fd1 stream))
  /\ (fd0 stream = fd1 stream -> fd0 stream = 0).
Proof.
  intros H. exact (handles_reachable allowed stream os H).
Qed.

Lemma reachable_descriptors_open_and_distinct_witness :
  exists os,
    reachable any_op (mkStream 4 3 4 0 8) os
    /\ (is_Some (os_files os !! 4) /\ is_Some (os_files os !! 3)).
Proof.
  assert (H : exists os, reachable any_op (mkStream 4 3 4 0 8) os).
  { eexists.
    eapply (reach_step _ _ _ (OpAppend BBBB)).
    - eapply (reach_step _ _ _ OpNewPage).
      + eapply (reach_step _ _ _ (OpAppend AAAA)).
        * apply (reach_new _ os_boot).
        * split; [cbn; lia | reflexivity].
        * exact I.
        * vm_compute. reflexivity.
      + exact I.
      + exact I.
      + vm_compute. reflexivity.
    - split; [cbn; lia | reflexivity].
    - exact I.
    - vm_compute. reflexivity. }
  destruct H as [os H]. exists os. split; [exact H|].
  destruct (reachable_descriptors_open_and_distinct any_op _ os H) as ([Hz|H0] & [Hz'|H1] & _);
    cbn in *; try lia. auto.
Defined.

(** ** What [_xpwrite] does not do *)

Lemma xpwrite_loop_only_writes fuel : forall fd data len off tr os os',
  Forall (fun i => i <> Fail EINVAL) (os_script os) ->
  xpwrite_loop fuel fd data len off tr os = Done (tt, os') ->
  exists delta, os_log os' = os_log os ++ delta
                /\ Forall (fun ev => exists d l o, ev.1 = SysPwrite fd d l o) delta.
Proof.
  induction fuel as [|fuel IH]; intros fd data len off tr os os' Hsc H; [discriminate|].
  cbn [xpwrite_loop] in H.
  destruct (len =? 0).
  { injection H as <-. exists []. rewrite app_nil_r. split; [reflexivity | constructor]. }
  apply mbind_Done in H as (r & os1 & Hc & H).
  assert (Hsc1 : Forall (fun i => i <> Fail EINVAL) (os_script os1)).
  { destruct (os_call_cases os fd) as [(e & sc & Hs)|[[Hp Hf]|[Hp (f & Hf)]]].
    - rewrite (sys_pwrite_fail _ _ _ _ _ _ _ Hs) in Hc. injection Hc as _ <-.
      cbn. rewrite Hs in *. cbn. inversion Hsc; auto.
    - rewrite (sys_pwrite_badf _ _ _ _ _ Hp Hf) in Hc. injection Hc as _ <-.
      cbn. destruct (os_script os); cbn; [constructor | inversion Hsc; auto].
    - rewrite (sys_pwrite_ok _ _ _ _ _ _ Hp Hf) in Hc. injection Hc as _ <-.
      cbn. destruct (os_script os); cbn; [constructor | inversion Hsc; auto]. }
  assert (Hr : r <> RetErr EINVAL).
  { destruct (os_call_cases os fd) as [(e & sc & Hs)|[[Hp Hf]|[Hp (f & Hf)]]].
    - rewrite (sys_pwrite_fail _ _ _ _ _ _ _ Hs) in Hc. injection Hc as <- _.
      rewrite Hs in Hsc. inversion Hsc as [|? ? Hne _]. congruence.
    - rewrite (sys_pwrite_badf _ _ _ _ _ Hp Hf) in Hc. injection Hc as <- _. discriminate.
    - rewrite (sys_pwrite_ok _ _ _ _ _ _ Hp Hf) in Hc. injection Hc as <- _. discriminate. }
  apply sys_pwrite_log in Hc.
  assert (Hstop : mret tt os1 = Done (tt, os') ->
    exists delta, os_log os' = os_log os ++ delta
                  /\ Forall (fun ev => exists d l o, ev.1 = SysPwrite fd d l o) delta).
  { intros Hret. injection Hret as <-. eexists. split; [exact Hc|].
    repeat constructor. cbn. eauto. }
  assert (Hgo : forall data' len' off',
    xpwrite_loop fuel fd data' len' off' tr os1 = Done (tt, os') ->
    exists delta, os_log os' = os_log os ++ delta
                  /\ Forall (fun ev => exists d l o, ev.1 = SysPwrite fd d l o) delta).
  { intros data' len' off' Hrun. apply IH in Hrun as (delta & Hl & Hall); [|exact Hsc1].
    exists ((SysPwrite fd data len off, r) :: delta).
    split; [rewrite Hl, Hc, <- app_assoc; reflexivity|].
    constructor; [cbn; eauto | exact Hall]. }
  destruct r as [z|e].
  - destruct (z =? 0); [apply Hstop, H | eapply Hgo, H].
  - destruct e; try (apply Hstop, H); [eapply Hgo, H | congruence].
Qed.

(** X20: [_xpwrite] truncates only in answer to EINVAL: when no event of
    the script is that error, a call that returns has issued nothing but
    [pwrite]s on its descriptor. *)
Theorem xpwrite_truncates_only_after_einval (fd : Z) (data : list byte) (len offset : Z)
                                            (os os' : OS) :
  Forall (fun i => i <> Fail EINVAL) (os_script os) ->
  _xpwrite fd data len offset os = Done (tt, os') ->
  exists delta,
    os_log os' = os_log os ++ delta
    /\ Forall (fun ev => exists d l o, ev.1 = SysPwrite fd d l o) delta.
Proof.
  intros Hsc H. unfold _xpwrite in H.
  destruct ((fd =? 0) && negb (len =? 0)); [discriminate|].
  rewrite mbind_pending in H. eapply xpwrite_loop_only_writes; eassumption.
Qed.

Lemma xpwrite_truncates_only_after_einval_witness :
  exists delta,
    [(SysPwrite 3 [x41; x42] 2 0, RetErr EINTR); (SysPwrite 3 [x41; x42] 2 0, RetOk 1);
     (SysPwrite 3 [x42] 1 1, RetErr ENOSPC)] = [] ++ delta
    /\ Forall (fun ev => exists d l o, ev.1 = SysPwrite 3 d l o) delta.
Proof.
  refine (xpwrite_truncates_only_after_einval 3 [x41; x42] 2 0
            (mkOS {[3 := []]} ∅ [Fail EINTR; Short 1; Fail ENOSPC] [])
            (mkOS {[3 := [x41]]} ∅ []
               [(SysPwrite 3 [x41; x42] 2 0, RetErr EINTR);
                (SysPwrite 3 [x41; x42] 2 0, RetOk 1);
                (SysPwrite 3 [x42] 1 1, RetErr ENOSPC)]) _ _).
  - repeat constructor; discriminate.
  - vm_compute. reflexivity.
Defined.
